(** * A shallow embedding of the [log] package (a facade over zap and lumberjack)

    The package keeps a process-wide default logger ([DefaultZapLogger]) and a
    process-wide level cell ([loglv]), builds loggers from a [Config], derives
    child loggers by binding fields, and forwards every leveled call to a zap
    logger of one of two channels.

    Package state is threaded explicitly: a [World] holds the cells allocated by
    [zap.NewAtomicLevelAt], the [LogEntry] objects allocated by the package,
    the two package variables, and the trace of [Write] calls made on sinks.
    A Go function is a computation [M A]; it returns, panics, or exits.

    The parts of the imported libraries that the package calls (zap's level
    check, core and sugared front end; a fragment of [fmt.Sprintf]; the
    lexical part of [context.WithValue]) are embedded in the modules [Fmt],
    [Zap] and [Ctx].  Timestamps and the caller's file:line are not part of
    the embedding; a written line records the encoder, the level, the message,
    the caller-skip count and the fields handed to the encoder.  Sink writes
    are taken to succeed.  Whether [os.MkdirAll] fails is a function of the
    path, carried by the state; the order in which a map is iterated is
    drawn from a list of choices, carried by the state as well.  Of the call
    styles, the plain, [With], [v] and [f] styles are embedded.

    The statements about the default logger are made for the states that
    satisfy [wf], the invariant that holds after package initialisation and
    is kept by [Configure], [NewLogEntry], [WithFields], [SetLevel] and the
    logging calls. *)

From Stdlib Require Import Ascii String.
From stdpp Require Import base numbers list strings gmap pretty.

Set Warnings "-register-all".

Local Open Scope Z_scope.

(** ** Values of type [interface{}] *)

Inductive Value : Type :=
  | VNil
  | VString (s : string)
  | VInt (n : Z)
  | VBool (b : bool)
  | VLevel (l : Z)
  | VError (msg : string)
  | VSlice (vs : list Value).

(** [type Fields map[string]interface{}] *)
Abbreviation Fields := (gmap string Value).

(** [const DefaultFieldName = "-"] *)
Definition DefaultFieldName : string := "-".

(** ** A fragment of [fmt.Sprintf]

    Verbs [%v], [%d], [%s] and the literal [%%], on string, int and
    [[]interface{}] operands.  [None] marks a format or an operand outside the
    fragment. *)
Module Fmt.

Definition typeName (v : Value) : option string :=
  match v with
  | VString _ => Some "string"
  | VInt _ => Some "int"
  | VSlice _ => Some "[]interface {}"
  | _ => None
  end.

Definition badVerb (verb : ascii) (ty body : string) : string :=
  "%!" +:+ String verb (String "(" (ty +:+ "=" +:+ body +:+ ")")).

Definition join_space (parts : list string) : string :=
  match parts with
  | [] => ""
  | p :: ps => fold_left (λ acc q, acc +:+ " " +:+ q) ps p
  end.

Definition sequence (l : list (option string)) : option (list string) :=
  mapM id l.

(** [printValue]: a slice prints its elements with the same verb. *)
Fixpoint printValue (verb : ascii) (v : Value) : option string :=
  match v with
  | VString s =>
      if bool_decide (verb = "d"%char)
      then Some (badVerb verb "string" s) else Some s
  | VInt n =>
      if bool_decide (verb = "s"%char)
      then Some (badVerb verb "int" (pretty n)) else Some (pretty n)
  | VSlice vs =>
      parts ← sequence (map (printValue verb) vs);
      Some ("[" +:+ join_space parts +:+ "]")
  | _ => None
  end.

Definition is_verb (c : ascii) : bool :=
  bool_decide (c = "v"%char) || bool_decide (c = "d"%char)
  || bool_decide (c = "s"%char).

(** Operands left over after the format is consumed. *)
Fixpoint extraArgs (first : bool) (args : list Value) : option string :=
  match args with
  | [] => Some ""
  | a :: rest =>
      ty ← typeName a;
      body ← printValue "v" a;
      more ← extraArgs false rest;
      Some ((if first then "" else ", ") +:+ ty +:+ "=" +:+ body +:+ more)
  end.

Definition extra (args : list Value) : option string :=
  match args with
  | [] => Some ""
  | _ => e ← extraArgs true args; Some ("%!(EXTRA " +:+ e +:+ ")")
  end.

Fixpoint doPrintf (format : string) (args : list Value) : option string :=
  match format with
  | EmptyString => extra args
  | String c rest =>
      if bool_decide (c = "%"%char) then
        match rest with
        | EmptyString => e ← extra args; Some ("%!(NOVERB)" +:+ e)
        | String v rest' =>
            if bool_decide (v = "%"%char) then
              String "%" <$> doPrintf rest' args
            else if is_verb v then
              match args with
              | [] =>
                  r ← doPrintf rest' [];
                  Some ("%!" +:+ String v "(MISSING)" +:+ r)
              | a :: args' =>
                  s ← printValue v a;
                  r ← doPrintf rest' args';
                  Some (s +:+ r)
              end
            else None
        end
      else String c <$> doPrintf rest args
  end.

Definition Sprintf := doPrintf.

End Fmt.

(** ** Data of the imported libraries *)

(** [zapcore.Level] is an [int8]; the named levels are consecutive. *)
Definition DebugLevel : Z := -1.
Definition InfoLevel : Z := 0.
Definition WarnLevel : Z := 1.
Definition ErrorLevel : Z := 2.
Definition DPanicLevel : Z := 3.
Definition PanicLevel : Z := 4.
Definition FatalLevel : Z := 5.

(** [zapcore.Field], reduced to its key and the value it carries. *)
Record Field := mkField { Key : string; Val : Value }.

Definition zap_Any (k : string) (v : Value) : Field := mkField k v.
Definition zap_Bool (k : string) (b : bool) : Field := mkField k (VBool b).
Definition zap_Int (k : string) (n : Z) : Field := mkField k (VInt n).
Definition zap_String (k : string) (s : string) : Field := mkField k (VString s).
Definition zap_Error (err : string) : Field := mkField "error" (VError err).

(** An [*os.File]. *)
Inductive File := Stdout | Stderr | OpenFile (fd : nat).

(** The operands of [path.Join(dir, filename)], kept apart. *)
Record Path := path_Join { path_dir : string; path_base : string }.

(** [lumberjack.Logger] as [newRollingFile] fills it. *)
Record Lumberjack := mkLumberjack {
  lj_Filename : Path;
  lj_MaxSize : Z;
  lj_MaxAge : Z;
  lj_MaxBackups : Z;
  lj_LocalTime : bool
}.

(** What can sit in a [zapcore.WriteSyncer] slot of this package: the nil
    interface, a console stream, or a rolling file. *)
Inductive Writer :=
  | WNil
  | WConsole (f : File)
  | WRolling (lj : Lumberjack).

Inductive WriteSyncer :=
  | Single (w : Writer)
  | Multi (ws : list Writer).

(** [zapcore.NewMultiWriteSyncer]: a single writer is returned as it is. *)
Definition NewMultiWriteSyncer (ws : list Writer) : WriteSyncer :=
  match ws with
  | [w] => Single w
  | _ => Multi ws
  end.

Inductive zapcore_LevelEncoder :=
  | LowercaseLevelEncoder
  | CapitalLevelEncoder
  | CustomLevelEncoder (id : nat).

Inductive TimeEncoder := ConsoleLogTimeEncoder | ShortTimeEncoder.
Inductive DurationEncoder := NanosDurationEncoder.
Inductive CallerEncoder := ShortCallerEncoder.

Record EncoderConfig := mkEncoderConfig {
  TimeKey : string;
  LevelKey : string;
  NameKey : string;
  CallerKey : string;
  MessageKey : string;
  StacktraceKey : string;
  ec_ConsoleSeparator : string;
  EncodeLevel : option zapcore_LevelEncoder;
  EncodeTime : option TimeEncoder;
  EncodeDuration : option DurationEncoder;
  EncodeCaller : option CallerEncoder
}.

Inductive Encoder :=
  | ConsoleEncoder (cfg : EncoderConfig)
  | JSONEncoder (cfg : EncoderConfig).

(** [zapcore.ioCore]: [level] is the address of the [zap.AtomicLevel] cell,
    [ctx] the fields added to the encoder by [With]. *)
Record Core := mkCore {
  enc : Encoder;
  out : WriteSyncer;
  level : nat;
  ctx : list Field
}.

Record Logger := mkLogger {
  core : Core;
  addCaller : bool;
  callerSkip : Z;
  development : bool
}.

Record SugaredLogger := mkSugared { base : Logger }.

(** [type LogEntry struct] *)
Record LogEntry := mkLogEntry {
  infoSugared : SugaredLogger;
  errorSugared : SugaredLogger;
  infoLogger : Logger;
  errorLogger : Logger
}.

(** A [*LogEntry]. *)
Inductive Ptr := Nil | Addr (a : nat).

(** The bytes of one [Write], before encoding. *)
Record Line := mkLine {
  line_enc : Encoder;
  line_level : Z;
  line_msg : string;
  line_caller : option Z;
  line_fields : list Field
}.

(** [type Config struct] *)
Record Config := mkConfig {
  Level : Z;
  EncodeLogsAsJson : bool;
  FileLoggingEnabled : bool;
  ConsoleLoggingEnabled : bool;
  CallerEnabled : bool;
  CallerSkip : Z;
  Directory : string;
  Filename : string;
  MaxSize : Z;
  MaxBackups : Z;
  MaxAge : Z;
  ConsoleInfoStream : option File;
  ConsoleErrorStream : option File;
  ConsoleSeparator : string;
  LevelEncoder : option zapcore_LevelEncoder
}.

(** ** Package state and computations *)

Record World := mkWorld {
  levels : list Z;                    (* cells of zap.AtomicLevel *)
  entries : list LogEntry;            (* allocated LogEntry objects *)
  DefaultZapLogger : Ptr;             (* var DefaultZapLogger *)
  loglv : option nat;                 (* var loglv; None is the zero value *)
  MkdirAll_err : string → option string;  (* outcome of os.MkdirAll per path *)
  iter : list nat;                    (* choices made by map iteration *)
  written : list (Writer * Line)      (* Write calls, oldest first *)
}.

Definition set_levels (x : list Z) (w : World) : World :=
  mkWorld x (entries w) (DefaultZapLogger w) (loglv w) (MkdirAll_err w) (iter w) (written w).
Definition set_entries (x : list LogEntry) (w : World) : World :=
  mkWorld (levels w) x (DefaultZapLogger w) (loglv w) (MkdirAll_err w) (iter w) (written w).
Definition set_DefaultZapLogger (x : Ptr) (w : World) : World :=
  mkWorld (levels w) (entries w) x (loglv w) (MkdirAll_err w) (iter w) (written w).
Definition set_loglv (x : option nat) (w : World) : World :=
  mkWorld (levels w) (entries w) (DefaultZapLogger w) x (MkdirAll_err w) (iter w) (written w).
Definition set_iter (x : list nat) (w : World) : World :=
  mkWorld (levels w) (entries w) (DefaultZapLogger w) (loglv w) (MkdirAll_err w) x (written w).
Definition set_written (x : list (Writer * Line)) (w : World) : World :=
  mkWorld (levels w) (entries w) (DefaultZapLogger w) (loglv w) (MkdirAll_err w) (iter w) x.

Inductive PanicValue :=
  | NilDereference                    (* runtime error: nil pointer dereference *)
  | PanicMsg (msg : string)
  | NilParentContext.                 (* cannot create context from nil parent *)

Inductive Outcome (A : Type) :=
  | Ret (a : A)
  | Panic (p : PanicValue)
  | Exit (code : Z)
  | OutsideFmt.                       (* format outside the fragment of [Fmt] *)
Arguments Ret {A} a.
Arguments Panic {A} p.
Arguments Exit {A} code.
Arguments OutsideFmt {A}.

Definition M (A : Type) : Type := World → Outcome A * World.

Definition ret {A} (a : A) : M A := λ w, (Ret a, w).

Definition bind {A B} (m : M A) (k : A → M B) : M B := λ w,
  match m w with
  | (Ret a, w') => k a w'
  | (Panic p, w') => (Panic p, w')
  | (Exit c, w') => (Exit c, w')
  | (OutsideFmt, w') => (OutsideFmt, w')
  end.

Notation "x <- m ;; k" := (bind m (λ x, k))
  (at level 100, m at next level, right associativity).
Notation "m ;;; k" := (bind m (λ _, k))
  (at level 100, k at level 200, right associativity).

Definition panic {A} (p : PanicValue) : M A := λ w, (Panic p, w).
Definition os_Exit {A} (c : Z) : M A := λ w, (Exit c, w).
Definition get {A} (f : World → A) : M A := λ w, (Ret (f w), w).
Definition modify (f : World → World) : M unit := λ w, (Ret tt, f w).

(** [*p] *)
Definition load (p : Ptr) : M LogEntry := λ w,
  match p with
  | Nil => (Panic NilDereference, w)
  | Addr a =>
      match entries w !! a with
      | Some e => (Ret e, w)
      | None => (Panic NilDereference, w)
      end
  end.

(** [&LogEntry{...}] *)
Definition alloc (e : LogEntry) : M Ptr := λ w,
  (Ret (Addr (length (entries w))), set_entries (entries w ++ [e]) w).

Definition os_MkdirAll (dir : string) : M (option string) :=
  get (λ w, MkdirAll_err w dir).

(** Iteration over a map visits the entries in an order the runtime picks:
    each step takes the entry at the next choice, modulo what is left. *)
Fixpoint pick {A} (choices : list nat) (l : list A) (fuel : nat) : list A :=
  match fuel with
  | O => []
  | S fuel' =>
      let i := (hd 0%nat choices `mod` length l)%nat in
      match l !! i with
      | Some x => x :: pick (tl choices) (delete i l) fuel'
      | None => []
      end
  end.

Definition range (m : Fields) : M (list (string * Value)) := λ w,
  let l := map_to_list m in
  (Ret (pick (iter w) l (length l)), set_iter (drop (length l) (iter w)) w).

(** ** The parts of zap the package calls *)
Module Zap.

(** [zap.NewAtomicLevelAt] allocates a fresh cell. *)
Definition NewAtomicLevelAt (l : Z) : M nat := λ w,
  (Ret (length (levels w)), set_levels (levels w ++ [l]) w).

Definition AtomicLevel_Level (a : nat) : M Z := λ w,
  match levels w !! a with
  | Some l => (Ret l, w)
  | None => (Panic NilDereference, w)
  end.

Definition AtomicLevel_SetLevel (a : nat) (l : Z) : M unit := λ w,
  if bool_decide (a < length (levels w))%nat
  then (Ret tt, set_levels (<[a:=l]> (levels w)) w)
  else (Panic NilDereference, w).

(** [func (lvl AtomicLevel) Enabled(l Level) bool { return lvl.Level().Enabled(l) }]
    and [func (l Level) Enabled(lvl Level) bool { return lvl >= l }] *)
Definition AtomicLevel_Enabled (a : nat) (l : Z) : M bool :=
  cur <- AtomicLevel_Level a ;; ret (bool_decide (cur ≤ l)).

Definition Writer_Write (wr : Writer) (ln : Line) : M unit :=
  match wr with
  | WNil => panic NilDereference
  | _ => modify (λ w, set_written (written w ++ [(wr, ln)]) w)
  end.

Fixpoint Writers_Write (ws : list Writer) (ln : Line) : M unit :=
  match ws with
  | [] => ret tt
  | x :: rest => Writer_Write x ln ;;; Writers_Write rest ln
  end.

Definition WriteSyncer_Write (ws : WriteSyncer) (ln : Line) : M unit :=
  match ws with
  | Single wr => Writer_Write wr ln
  | Multi l => Writers_Write l ln
  end.

Definition NewCore (e : Encoder) (ws : WriteSyncer) (lv : nat) : Core :=
  mkCore e ws lv [].

(** [ioCore.With]: the fields are added to a clone of the encoder. *)
Definition Core_With (c : Core) (fields : list Field) : Core :=
  mkCore (enc c) (out c) (level c) (ctx c ++ fields).

Inductive Option := AddCaller | AddCallerSkip (skip : Z).

Definition apply (log : Logger) (o : Option) : Logger :=
  match o with
  | AddCaller => mkLogger (core log) true (callerSkip log) (development log)
  | AddCallerSkip n =>
      mkLogger (core log) (addCaller log) (callerSkip log + n) (development log)
  end.

Definition New (c : Core) (opts : list Option) : Logger :=
  fold_left apply opts (mkLogger c false 0 false).

Definition Logger_With (log : Logger) (fields : list Field) : Logger :=
  match fields with
  | [] => log
  | _ => mkLogger (Core_With (core log) fields)
           (addCaller log) (callerSkip log) (development log)
  end.

Definition Sugar (log : Logger) : SugaredLogger :=
  mkSugared (mkLogger (core log) (addCaller log) (callerSkip log + 2)
                      (development log)).

Definition lineOf (log : Logger) (lvl : Z) (msg : string)
    (fields : list Field) : Line :=
  mkLine (enc (core log)) lvl msg
         (if addCaller log then Some (callerSkip log) else None)
         (ctx (core log) ++ fields).

(** [if ce := log.check(lvl, msg); ce != nil { ce.Write(fields...) }]:
    below DPanic a disabled level returns at once; otherwise the core
    writes when the level is enabled, and the terminal behaviour of the
    level follows the write. *)
Definition Logger_log (log : Logger) (lvl : Z) (msg : string)
    (fields : list Field) : M unit :=
  en <- AtomicLevel_Enabled (level (core log)) lvl ;;
  if bool_decide (lvl < DPanicLevel) && negb en then ret tt
  else
    (if en
     then WriteSyncer_Write (out (core log)) (lineOf log lvl msg fields)
     else ret tt) ;;;
    if bool_decide (lvl = PanicLevel) then panic (PanicMsg msg)
    else if bool_decide (lvl = FatalLevel) then os_Exit 1
    else if bool_decide (lvl = DPanicLevel) && development log
         then panic (PanicMsg msg)
    else ret tt.

Definition Logger_Debug log := Logger_log log DebugLevel.
Definition Logger_Info log := Logger_log log InfoLevel.
Definition Logger_Warn log := Logger_log log WarnLevel.
Definition Logger_Error log := Logger_log log ErrorLevel.
Definition Logger_DPanic log := Logger_log log DPanicLevel.
Definition Logger_Panic log := Logger_log log PanicLevel.
Definition Logger_Fatal log := Logger_log log FatalLevel.

(** [getMessage]: no arguments, the template as it is; otherwise
    [fmt.Sprintf]; with an empty template a single string argument is the
    message ([fmt.Sprint] is outside the fragment). *)
Definition getMessage (template : string) (fmtArgs : list Value) : M string :=
  match fmtArgs with
  | [] => ret template
  | _ =>
      if bool_decide (template ≠ "") then
        match Fmt.Sprintf template fmtArgs with
        | Some s => ret s
        | None => λ w, (OutsideFmt, w)
        end
      else
        match fmtArgs with
        | [VString str] => ret str
        | _ => λ w, (OutsideFmt, w)
        end
  end.

(** [SugaredLogger.log] with no context pairs. *)
Definition SugaredLogger_log (s : SugaredLogger) (lvl : Z)
    (template : string) (fmtArgs : list Value) : M unit :=
  en <- AtomicLevel_Enabled (level (core (base s))) lvl ;;
  if bool_decide (lvl < DPanicLevel) && negb en then ret tt
  else
    msg <- getMessage template fmtArgs ;;
    Logger_log (base s) lvl msg [].

(** [func (s *SugaredLogger) Debugf(template string, args ...interface{})] *)
Definition Debugf s := SugaredLogger_log s DebugLevel.
Definition Infof s := SugaredLogger_log s InfoLevel.
Definition Warnf s := SugaredLogger_log s WarnLevel.
Definition Errorf s := SugaredLogger_log s ErrorLevel.
Definition DPanicf s := SugaredLogger_log s DPanicLevel.
Definition Panicf s := SugaredLogger_log s PanicLevel.
Definition Fatalf s := SugaredLogger_log s FatalLevel.

End Zap.

(** ** [context.Context], as far as [Value] and [WithValue] go *)
Module Ctx.

(** Keys of this package's unexported type [key], and keys of others. *)
Inductive CtxKey := PkgKey (k : Z) | ForeignKey (name : string).

Inductive CtxVal := LogEntryVal (p : Ptr) | OtherVal (v : Value).

#[global] Instance CtxKey_eq_dec : EqDecision CtxKey.
Proof. solve_decision. Defined.

(** Bindings, innermost first; [None] is the nil interface. *)
Definition Context := option (list (CtxKey * CtxVal)).

Definition Background : Context := Some [].

Definition WithValue (parent : Context) (k : CtxKey) (v : CtxVal) : M Context :=
  match parent with
  | None => panic NilParentContext
  | Some bs => ret (Some ((k, v) :: bs))
  end.

Fixpoint lookup (bs : list (CtxKey * CtxVal)) (k : CtxKey) : option CtxVal :=
  match bs with
  | [] => None
  | (k', v) :: rest => if decide (k' = k) then Some v else lookup rest k
  end.

Definition Value (c : Context) (k : CtxKey) : M (option CtxVal) :=
  match c with
  | None => panic NilDereference
  | Some bs => ret (lookup bs k)
  end.

End Ctx.

(** ** log_entry.go *)

(** [func getLogEntry(infoLogger *zap.Logger, errorLogger *zap.Logger) *LogEntry] *)
Definition getLogEntry (infoLogger errorLogger : Logger) : M Ptr :=
  alloc (mkLogEntry (Zap.Sugar infoLogger) (Zap.Sugar errorLogger)
                    infoLogger errorLogger).

(** [func convertFields(fields Fields) []zapcore.Field] *)
Definition convertFields (fields : Fields) : M (list Field) :=
  kvs <- range fields ;;
  ret (map (λ kv, zap_Any (fst kv) (snd kv)) kvs).

(** [func newLogEntry(logEntry *LogEntry, fields Fields) *LogEntry] *)
Definition newLogEntry (logEntry : Ptr) (fields : Fields) : M Ptr :=
  args <- convertFields fields ;;
  e <- load logEntry ;;
  let il := Zap.Logger_With (infoLogger e) args in
  let el := Zap.Logger_With (errorLogger e) args in
  alloc (mkLogEntry (Zap.Sugar il) (Zap.Sugar el) il el).

(** [func (le *LogEntry) WithFields(f Fields) *LogEntry] *)
Definition LogEntry_WithFields (le : Ptr) (f : Fields) : M Ptr :=
  args <- convertFields f ;;
  e <- load le ;;
  let il := Zap.Logger_With (infoLogger e) args in
  let el := Zap.Logger_With (errorLogger e) args in
  alloc (mkLogEntry (Zap.Sugar il) (Zap.Sugar el) il el).

(** [func (le *LogEntry) ContextWithLogger(ctx context.Context) context.Context] *)
Definition loggerKey : Ctx.CtxKey := Ctx.PkgKey 1.

Definition LogEntry_ContextWithLogger (le : Ptr) (c : Ctx.Context) : M Ctx.Context :=
  Ctx.WithValue c loggerKey (Ctx.LogEntryVal le).

(** The methods of [*LogEntry]: Debug and Info go to the info channel, the
    others to the error channel. *)
Definition LogEntry_DebugWith (le : Ptr) (msg : string) (fields : Fields) : M unit :=
  e <- load le ;; fs <- convertFields fields ;; Zap.Logger_Debug (infoLogger e) msg fs.
Definition LogEntry_Debug (le : Ptr) (msg : string) : M unit :=
  e <- load le ;; Zap.Logger_Debug (infoLogger e) msg [].
Definition LogEntry_Debugf (le : Ptr) (template : string) (args : list Value) : M unit :=
  e <- load le ;; Zap.Debugf (infoSugared e) template [VSlice args].
Definition LogEntry_Debugv (le : Ptr) (msg : string) (fields : list Field) : M unit :=
  e <- load le ;; Zap.Logger_Debug (infoLogger e) msg fields.

Definition LogEntry_InfoWith (le : Ptr) (msg : string) (fields : Fields) : M unit :=
  e <- load le ;; fs <- convertFields fields ;; Zap.Logger_Info (infoLogger e) msg fs.
Definition LogEntry_Info (le : Ptr) (msg : string) : M unit :=
  e <- load le ;; Zap.Logger_Info (infoLogger e) msg [].
Definition LogEntry_Infof (le : Ptr) (template : string) (args : list Value) : M unit :=
  e <- load le ;; Zap.Infof (infoSugared e) template [VSlice args].
Definition LogEntry_Infov (le : Ptr) (msg : string) (fields : list Field) : M unit :=
  e <- load le ;; Zap.Logger_Info (infoLogger e) msg fields.

Definition LogEntry_WarnWith (le : Ptr) (msg : string) (fields : Fields) : M unit :=
  e <- load le ;; fs <- convertFields fields ;; Zap.Logger_Warn (errorLogger e) msg fs.
Definition LogEntry_Warn (le : Ptr) (msg : string) : M unit :=
  e <- load le ;; Zap.Logger_Warn (errorLogger e) msg [].
Definition LogEntry_Warnf (le : Ptr) (template : string) (args : list Value) : M unit :=
  e <- load le ;; Zap.Warnf (errorSugared e) template [VSlice args].
Definition LogEntry_Warnv (le : Ptr) (msg : string) (fields : list Field) : M unit :=
  e <- load le ;; Zap.Logger_Warn (errorLogger e) msg fields.

Definition LogEntry_ErrorWith (le : Ptr) (msg : string) (fields : Fields) : M unit :=
  e <- load le ;; fs <- convertFields fields ;; Zap.Logger_Error (errorLogger e) msg fs.
Definition LogEntry_Error (le : Ptr) (msg : string) : M unit :=
  e <- load le ;; Zap.Logger_Error (errorLogger e) msg [].
Definition LogEntry_Errorf (le : Ptr) (template : string) (args : list Value) : M unit :=
  e <- load le ;; Zap.Errorf (errorSugared e) template [VSlice args].
Definition LogEntry_Errorv (le : Ptr) (msg : string) (fields : list Field) : M unit :=
  e <- load le ;; Zap.Logger_Error (errorLogger e) msg fields.

Definition LogEntry_Fatalv (le : Ptr) (msg : string) (fields : list Field) : M unit :=
  e <- load le ;; Zap.Logger_Fatal (errorLogger e) msg fields.
Definition LogEntry_Fatalf (le : Ptr) (template : string) (args : list Value) : M unit :=
  e <- load le ;; Zap.Fatalf (errorSugared e) template [VSlice args].
Definition LogEntry_Panicv (le : Ptr) (msg : string) (fields : list Field) : M unit :=
  e <- load le ;; Zap.Logger_Panic (errorLogger e) msg fields.
Definition LogEntry_Panicf (le : Ptr) (template : string) (args : list Value) : M unit :=
  e <- load le ;; Zap.Panicf (errorSugared e) template [VSlice args].
Definition LogEntry_DPanicv (le : Ptr) (msg : string) (fields : list Field) : M unit :=
  e <- load le ;; Zap.Logger_DPanic (errorLogger e) msg fields.
Definition LogEntry_DPanicf (le : Ptr) (template : string) (args : list Value) : M unit :=
  e <- load le ;; Zap.DPanicf (errorSugared e) template [VSlice args].

(** ** The package-level functions *)

(** [DefaultZapLogger.x]: read the variable, then dereference. *)
Definition defaultEntry : M LogEntry := p <- get DefaultZapLogger ;; load p.

(** [func SetLevel(l Level)] *)
Definition SetLevel (l : Z) : M unit :=
  lv <- get loglv ;;
  match lv with
  | Some a => Zap.AtomicLevel_SetLevel a l
  | None => panic NilDereference
  end.

(** [func GetLevel() Level] *)
Definition GetLevel : M Z :=
  lv <- get loglv ;;
  match lv with
  | Some a => Zap.AtomicLevel_Level a
  | None => panic NilDereference
  end.

(** [var defaultConfig] *)
Definition defaultConfig : Config :=
  {| Level := DebugLevel; EncodeLogsAsJson := false; FileLoggingEnabled := false;
     ConsoleLoggingEnabled := false; CallerEnabled := true; CallerSkip := 1;
     Directory := ""; Filename := ""; MaxSize := 0; MaxBackups := 0; MaxAge := 0;
     ConsoleInfoStream := None; ConsoleErrorStream := None;
     ConsoleSeparator := "|"; LevelEncoder := Some LowercaseLevelEncoder |}.

(** [var DefaultRotateLoggerConfig]; [prog] is [filepath.Base(os.Args[0])]. *)
Definition DefaultRotateLoggerConfig (prog : string) : Config :=
  {| Level := DebugLevel; EncodeLogsAsJson := true; FileLoggingEnabled := true;
     ConsoleLoggingEnabled := false; CallerEnabled := true; CallerSkip := 1;
     Directory := "logs"; Filename := prog; MaxSize := 128; MaxBackups := 10;
     MaxAge := 90; ConsoleInfoStream := None; ConsoleErrorStream := None;
     ConsoleSeparator := ""; LevelEncoder := Some LowercaseLevelEncoder |}.

Definition Debugv (msg : string) (fields : list Field) : M unit :=
  d <- defaultEntry ;; Zap.Logger_Debug (infoLogger d) msg fields.
Definition Debugf (template : string) (args : list Value) : M unit :=
  d <- defaultEntry ;; Zap.Debugf (infoSugared d) template args.
Definition Debug (msg : string) : M unit :=
  d <- defaultEntry ;; Zap.Logger_Debug (infoLogger d) msg [].
Definition DebugWith (msg : string) (fields : Fields) : M unit :=
  if bool_decide (0 < size fields)%nat then
    d <- defaultEntry ;; fs <- convertFields fields ;; Zap.Logger_Debug (infoLogger d) msg fs
  else
    d <- defaultEntry ;; Zap.Logger_Debug (infoLogger d) msg [].

Definition Infov (msg : string) (fields : list Field) : M unit :=
  d <- defaultEntry ;; Zap.Logger_Info (infoLogger d) msg fields.
Definition Infof (template : string) (args : list Value) : M unit :=
  d <- defaultEntry ;; Zap.Infof (infoSugared d) template args.
Definition Info (msg : string) : M unit :=
  d <- defaultEntry ;; Zap.Logger_Info (infoLogger d) msg [].
Definition InfoWith (msg : string) (fields : Fields) : M unit :=
  if bool_decide (0 < size fields)%nat then
    d <- defaultEntry ;; fs <- convertFields fields ;; Zap.Logger_Info (infoLogger d) msg fs
  else
    d <- defaultEntry ;; Zap.Logger_Info (infoLogger d) msg [].

Definition Warnv (msg : string) (fields : list Field) : M unit :=
  d <- defaultEntry ;; Zap.Logger_Warn (errorLogger d) msg fields.
Definition Warnf (template : string) (args : list Value) : M unit :=
  d <- defaultEntry ;; Zap.Warnf (errorSugared d) template args.
Definition Warn (msg : string) : M unit :=
  d <- defaultEntry ;; Zap.Logger_Warn (errorLogger d) msg [].
Definition WarnWith (msg : string) (fields : Fields) : M unit :=
  if bool_decide (0 < size fields)%nat then
    d <- defaultEntry ;; fs <- convertFields fields ;; Zap.Logger_Warn (errorLogger d) msg fs
  else
    d <- defaultEntry ;; Zap.Logger_Warn (errorLogger d) msg [].

Definition Errorv (msg : string) (fields : list Field) : M unit :=
  d <- defaultEntry ;; Zap.Logger_Error (errorLogger d) msg fields.
Definition Errorf (template : string) (args : list Value) : M unit :=
  d <- defaultEntry ;; Zap.Errorf (errorSugared d) template args.
Definition Error (msg : string) : M unit :=
  d <- defaultEntry ;; Zap.Logger_Error (errorLogger d) msg [].
Definition ErrorWith (msg : string) (fields : Fields) : M unit :=
  if bool_decide (0 < size fields)%nat then
    d <- defaultEntry ;; fs <- convertFields fields ;; Zap.Logger_Error (errorLogger d) msg fs
  else
    d <- defaultEntry ;; Zap.Logger_Error (errorLogger d) msg [].

Definition Panicv (msg : string) (fields : list Field) : M unit :=
  d <- defaultEntry ;; Zap.Logger_Panic (errorLogger d) msg fields.
Definition Panicf (template : string) (args : list Value) : M unit :=
  d <- defaultEntry ;; Zap.Panicf (errorSugared d) template args.
Definition Fatalv (msg : string) (fields : list Field) : M unit :=
  d <- defaultEntry ;; Zap.Logger_Fatal (errorLogger d) msg fields.
Definition Fatalf (template : string) (args : list Value) : M unit :=
  d <- defaultEntry ;; Zap.Fatalf (errorSugared d) template args.
Definition DPanicv (msg : string) (fields : list Field) : M unit :=
  d <- defaultEntry ;; Zap.Logger_DPanic (errorLogger d) msg fields.
Definition DPanicf (template : string) (args : list Value) : M unit :=
  d <- defaultEntry ;; Zap.DPanicf (errorSugared d) template args.

(** [func AtLevel(level zapcore.Level, msg string, fields ...zapcore.Field)] *)
Definition AtLevel (lvl : Z) (msg : string) (fields : list Field) : M unit :=
  if bool_decide (lvl = DebugLevel) then Debugv msg fields
  else if bool_decide (lvl = PanicLevel) then Panicv msg fields
  else if bool_decide (lvl = ErrorLevel) then Errorv msg fields
  else if bool_decide (lvl = WarnLevel) then Warnv msg fields
  else if bool_decide (lvl = InfoLevel) then Infov msg fields
  else if bool_decide (lvl = FatalLevel) then Fatalv msg fields
  else
    Warnv "Logging at unkown level" [zap_Any "level" (VLevel lvl)] ;;;
    Warnv msg fields.

(** [strings.Replace(s, old, new, -1)] for a non-empty [old]: the
    occurrences of [old] are taken from the left, without overlap. *)
Fixpoint Replace_from (old new : string) (skip : nat) (s : string) : string :=
  match s with
  | EmptyString => EmptyString
  | String c rest =>
      match skip with
      | S k => Replace_from old new k rest
      | O =>
          if String.prefix old s
          then new +:+ Replace_from old new (String.length old - 1) rest
          else String c (Replace_from old new O rest)
      end
  end.

Definition strings_Replace (s old new : string) : string :=
  Replace_from old new O s.

(** [func getNameByLogLevel(filename string, level zapcore.Level) string] *)
Definition getNameByLogLevel (filename : string) (lvl : Z) : string :=
  let name :=
    if bool_decide (filename ≠ "")
    then strings_Replace filename ".log" "" +:+ "_"
    else "" in
  if bool_decide (lvl = ErrorLevel) then name +:+ "error.log"
  else name +:+ "info.log".

(** [func newRollingFile(dir, filename string, maxSize, maxAge, maxBackups int) zapcore.WriteSyncer] *)
Definition newRollingFile (dir filename : string) (maxSize maxAge maxBackups : Z)
    : M Writer :=
  err <- os_MkdirAll dir ;;
  match err with
  | Some e =>
      Errorv "failed create log directory" [zap_Error e; zap_String "path" dir] ;;;
      ret WNil
  | None =>
      ret (WRolling (mkLumberjack (path_Join dir filename)
                                  maxSize maxAge maxBackups true))
  end.

(** [func newZapLogger(config Config, infoOutput, errOutput zapcore.WriteSyncer, isDefaultLogger bool) *LogEntry] *)
Definition newZapLogger (config : Config) (infoOutput errOutput : WriteSyncer)
    (isDefaultLogger : bool) : M Ptr :=
  let encLevel :=
    match LevelEncoder config with
    | None => Some LowercaseLevelEncoder
    | Some e => Some e
    end in
  let encTime :=
    if negb (EncodeLogsAsJson config)
    then Some ConsoleLogTimeEncoder else Some ShortTimeEncoder in
  let encCfg :=
    mkEncoderConfig "@t" "lvl" "logger" "caller" "msg" "stacktrace"
      (ConsoleSeparator config) encLevel encTime
      (Some NanosDurationEncoder) (Some ShortCallerEncoder) in
  let encoder :=
    if EncodeLogsAsJson config then JSONEncoder encCfg else ConsoleEncoder encCfg in
  localLoglv <- Zap.NewAtomicLevelAt (Level config) ;;
  (if isDefaultLogger then modify (set_loglv (Some localLoglv)) else ret tt) ;;;
  if CallerEnabled config then
    getLogEntry
      (Zap.New (Zap.NewCore encoder infoOutput localLoglv)
               [Zap.AddCaller; Zap.AddCallerSkip (CallerSkip config)])
      (Zap.New (Zap.NewCore encoder errOutput localLoglv)
               [Zap.AddCaller; Zap.AddCallerSkip (CallerSkip config)])
  else
    getLogEntry (Zap.New (Zap.NewCore encoder infoOutput localLoglv) [])
                (Zap.New (Zap.NewCore encoder errOutput localLoglv) []).

(** [func DeclareLogger(config Config, logv func(msg string, fields ...zapcore.Field))] *)
Definition DeclareLogger (config : Config)
    (logv : string → list Field → M unit) : M unit :=
  logv "logging configured"
    [zap_Bool "fileLogging" (FileLoggingEnabled config);
     zap_Bool "consoleLogging" (ConsoleLoggingEnabled config);
     zap_Bool "caller" (CallerEnabled config);
     zap_Int "callerSkip" (CallerSkip config);
     zap_Bool "jsonLogOutput" (EncodeLogsAsJson config);
     zap_String "logDirectory" (Directory config);
     zap_Int "maxSizeMB" (MaxSize config);
     zap_Int "maxBackups" (MaxBackups config);
     zap_Int "maxAgeInDays" (MaxAge config)].

Definition with_ConsoleLoggingEnabled (b : bool) (c : Config) : Config :=
  mkConfig (Level c) (EncodeLogsAsJson c) (FileLoggingEnabled c) b
    (CallerEnabled c) (CallerSkip c) (Directory c) (Filename c) (MaxSize c)
    (MaxBackups c) (MaxAge c) (ConsoleInfoStream c) (ConsoleErrorStream c)
    (ConsoleSeparator c) (LevelEncoder c).

(** The first half of [Configure]: the two writer lists and the config as
    the function goes on with it. *)
Definition Configure_writers (config : Config)
    : M (Config * list Writer * list Writer) :=
  r <-
    (if FileLoggingEnabled config then
       infoLog <- newRollingFile (Directory config)
                    (getNameByLogLevel (Filename config) InfoLevel)
                    (MaxSize config) (MaxAge config) (MaxBackups config) ;;
       errLog <- newRollingFile (Directory config)
                    (getNameByLogLevel (Filename config) ErrorLevel)
                    (MaxSize config) (MaxAge config) (MaxBackups config) ;;
       ret (config, [infoLog], [errLog])
     else
       ret (with_ConsoleLoggingEnabled true config, [], [])) ;;
  let '(config, infoWriters, errWriters) := r in
  if ConsoleLoggingEnabled config then
    let infoWriters :=
      match ConsoleInfoStream config with
      | Some f => infoWriters ++ [WConsole f]
      | None => infoWriters ++ [WConsole Stdout]
      end in
    let errWriters :=
      match ConsoleErrorStream config with
      | Some f => errWriters ++ [WConsole f]
      | None => errWriters ++ [WConsole Stderr]
      end in
    ret (config, infoWriters, errWriters)
  else ret (config, infoWriters, errWriters).

(** [func Configure(config Config) error]; the result is the returned
    error, [None] for nil. *)
Definition Configure (config : Config) : M (option string) :=
  r <- Configure_writers config ;;
  let '(config, infoWriters, errWriters) := r in
  p <- newZapLogger config (NewMultiWriteSyncer infoWriters)
         (NewMultiWriteSyncer errWriters) true ;;
  modify (set_DefaultZapLogger p) ;;;
  DeclareLogger config Infov ;;;
  DeclareLogger config Errorv ;;;
  ret None.

(** [func NewLogEntry(config Config) *LogEntry] *)
Definition NewLogEntry (config : Config) : M Ptr :=
  r <-
    (if FileLoggingEnabled config then
       infoLog <- newRollingFile (Directory config)
                    (getNameByLogLevel (Filename config) InfoLevel)
                    (MaxSize config) (MaxAge config) (MaxBackups config) ;;
       errLog <- newRollingFile (Directory config)
                    (getNameByLogLevel (Filename config) ErrorLevel)
                    (MaxSize config) (MaxAge config) (MaxBackups config) ;;
       ret (config, [infoLog], [errLog])
     else
       ret (with_ConsoleLoggingEnabled true config,
            [WConsole Stdout], [WConsole Stderr])) ;;
  let '(config, infoWriters, errWriters) := r in
  logEntry <- newZapLogger config (NewMultiWriteSyncer infoWriters)
                (NewMultiWriteSyncer errWriters) false ;;
  DeclareLogger config (LogEntry_Infov logEntry) ;;;
  DeclareLogger config (LogEntry_Errorv logEntry) ;;;
  ret logEntry.

(** [func WithFields(fields Fields) *LogEntry] *)
Definition WithFields (fields : Fields) : M Ptr :=
  p <- get DefaultZapLogger ;; newLogEntry p fields.

(** [func WithField(k, v string) *LogEntry] *)
Definition WithField (k v : string) : M Ptr :=
  p <- get DefaultZapLogger ;; newLogEntry p {[ k := VString v ]}.

(** [func With(data string) *LogEntry] *)
Definition With (data : string) : M Ptr := WithField DefaultFieldName data.

(** [func FromContext(ctx context.Context) *LogEntry] *)
Definition FromContext (c : Ctx.Context) : M Ptr :=
  v <- Ctx.Value c loggerKey ;;
  match v with
  | Some (Ctx.LogEntryVal logger) => ret logger
  | _ => get DefaultZapLogger
  end.

(** [func ContextWithLogger(ctx context.Context) context.Context] *)
Definition ContextWithLogger (c : Ctx.Context) : M Ctx.Context :=
  p <- get DefaultZapLogger ;; LogEntry_ContextWithLogger p c.

(** [func ContextWithCustomizedLogger(ctx context.Context, logEntry *LogEntry) context.Context] *)
Definition ContextWithCustomizedLogger (c : Ctx.Context) (logEntry : Ptr)
    : M Ctx.Context :=
  LogEntry_ContextWithLogger logEntry c.

(** Package initialisation: [var DefaultZapLogger = newZapLogger(defaultConfig,
    os.Stdout, os.Stderr, true)], from the zero values of the variables. *)
Definition zero_world (fs : string → option string) (it : list nat) : World :=
  mkWorld [] [] Nil None fs it [].

Definition package_init : M unit :=
  p <- newZapLogger defaultConfig (Single (WConsole Stdout))
         (Single (WConsole Stderr)) true ;;
  modify (set_DefaultZapLogger p).

Definition init_world (fs : string → option string) (it : list nat) : World :=
  snd (package_init (zero_world fs it)).

(** ** Notions used in the statements *)

Definition nonnil (wr : Writer) : bool :=
  match wr with WNil => false | _ => true end.

Definition writers (ws : WriteSyncer) : list Writer :=
  match ws with Single x => [x] | Multi l => l end.

(** No nil interface among the writers. *)
Definition healthy (ws : WriteSyncer) : bool := forallb nonnil (writers ws).

(** The writers a [Write] gets to before it meets a nil one. *)
Fixpoint reached (l : list Writer) : list Writer :=
  match l with
  | [] => []
  | WNil :: _ => []
  | x :: rest => x :: reached rest
  end.

Definition emitted (ws : WriteSyncer) (ln : Line) : list (Writer * Line) :=
  map (λ x, (x, ln)) (reached (writers ws)).

Definition add_written (suffix : list (Writer * Line)) (w : World) : World :=
  set_written (written w ++ suffix) w.

(** What follows the write, by level. *)
Definition terminal (log : Logger) (lvl : Z) (msg : string) : Outcome unit :=
  if bool_decide (lvl = PanicLevel) then Panic (PanicMsg msg)
  else if bool_decide (lvl = FatalLevel) then Exit 1
  else if bool_decide (lvl = DPanicLevel) && development log
       then Panic (PanicMsg msg)
  else Ret tt.

Definition is_console (wr : Writer) : bool :=
  match wr with WConsole _ => true | _ => false end.

(** The four loggers of an entry read the cell [a]. *)
Definition same_gate (a : nat) (e : LogEntry) : bool :=
  bool_decide (level (core (infoLogger e)) = a)
  && bool_decide (level (core (errorLogger e)) = a)
  && bool_decide (level (core (base (infoSugared e))) = a)
  && bool_decide (level (core (base (errorSugared e))) = a).

(** The four loggers of an entry read allocated cells. *)
Definition entry_ok (n : nat) (e : LogEntry) : bool :=
  bool_decide (level (core (infoLogger e)) < n)%nat
  && bool_decide (level (core (errorLogger e)) < n)%nat
  && bool_decide (level (core (base (infoSugared e))) < n)%nat
  && bool_decide (level (core (base (errorSugared e))) < n)%nat.

(** The invariant of the package state: every entry reads allocated cells,
    [DefaultZapLogger] points to an entry, and that entry's loggers read
    the cell [loglv]. *)
Definition wf (w : World) : bool :=
  forallb (entry_ok (length (levels w))) (entries w)
  && match loglv w, DefaultZapLogger w with
     | Some a, Addr d =>
         match entries w !! d with
         | Some e => same_gate a e
         | None => false
         end
     | _, _ => false
     end.

(** [strings.Contains(s, old)] *)
Fixpoint occurs (old s : string) : bool :=
  match s with
  | EmptyString => String.prefix old EmptyString
  | String _ rest => String.prefix old s || occurs old rest
  end.

(** An entry as [newZapLogger] builds it: both channels on the cell [a],
    with the given outputs, one encoder and no bound fields. *)
Definition built (io eo : WriteSyncer) (a : nat) (e : LogEntry) : Prop :=
  ∃ en,
    core (infoLogger e) = mkCore en io a []
    ∧ core (errorLogger e) = mkCore en eo a []
    ∧ infoSugared e = Zap.Sugar (infoLogger e)
    ∧ errorSugared e = Zap.Sugar (errorLogger e)
    ∧ development (infoLogger e) = false
    ∧ development (errorLogger e) = false.

(** The state once [newZapLogger] has built [e] from [config] and the
    result is installed as the default logger. *)
Definition installed (config : Config) (e : LogEntry) (w : World) : World :=
  mkWorld (levels w ++ [Level config]) (entries w ++ [e])
    (Addr (length (entries w))) (Some (length (levels w)))
    (MkdirAll_err w) (iter w) (written w).

(** The fields of the "logging configured" line. *)
Definition declaration (config : Config) : list Field :=
  [zap_Bool "fileLogging" (FileLoggingEnabled config);
   zap_Bool "consoleLogging" (ConsoleLoggingEnabled config);
   zap_Bool "caller" (CallerEnabled config);
   zap_Int "callerSkip" (CallerSkip config);
   zap_Bool "jsonLogOutput" (EncodeLogsAsJson config);
   zap_String "logDirectory" (Directory config);
   zap_Int "maxSizeMB" (MaxSize config);
   zap_Int "maxBackups" (MaxBackups config);
   zap_Int "maxAgeInDays" (MaxAge config)].

(** The state once [newZapLogger] has built [e] from [config] for
    [NewLogEntry]: the package variables stay as they are. *)
Definition allocated (config : Config) (e : LogEntry) (w : World) : World :=
  mkWorld (levels w ++ [Level config]) (entries w ++ [e])
    (DefaultZapLogger w) (loglv w)
    (MkdirAll_err w) (iter w) (written w).

(** The console writers [Configure] picks. *)
Definition info_console (config : Config) : Writer :=
  match ConsoleInfoStream config with
  | Some f => WConsole f
  | None => WConsole Stdout
  end.

Definition error_console (config : Config) : Writer :=
  match ConsoleErrorStream config with
  | Some f => WConsole f
  | None => WConsole Stderr
  end.

(** The rolling file [newRollingFile] returns when the directory is there. *)
Definition rolling (config : Config) (lvl : Z) : Writer :=
  WRolling (mkLumberjack
    (path_Join (Directory config) (getNameByLogLevel (Filename config) lvl))
    (MaxSize config) (MaxAge config) (MaxBackups config) true).

(** The lines of the two "logging configured" calls that reach a writer,
    for an entry whose cell holds [Level config]. *)
Definition declared (config : Config) (e : LogEntry) : list (Writer * Line) :=
  let io := out (core (infoLogger e)) in
  let okI := negb (bool_decide (Level config ≤ InfoLevel)) || healthy io in
  (if bool_decide (Level config ≤ InfoLevel)
   then emitted io (Zap.lineOf (infoLogger e) InfoLevel
                      "logging configured" (declaration config))
   else [])
  ++ (if okI && bool_decide (Level config ≤ ErrorLevel)
      then emitted (out (core (errorLogger e)))
             (Zap.lineOf (errorLogger e) ErrorLevel
                "logging configured" (declaration config))
      else []).

(** Whether the two "logging configured" calls get past every writer. *)
Definition declares (config : Config) (e : LogEntry) : bool :=
  (negb (bool_decide (Level config ≤ InfoLevel))
   || healthy (out (core (infoLogger e))))
  && (negb (bool_decide (Level config ≤ ErrorLevel))
      || healthy (out (core (errorLogger e)))).

(** The line [newRollingFile] logs through the default entry [d] when the
    directory [dir] cannot be created, once per writer it reaches. *)
Definition mkdir_report (d : LogEntry) (err dir : string) : list (Writer * Line) :=
  emitted (out (core (errorLogger d)))
    (Zap.lineOf (errorLogger d) ErrorLevel "failed create log directory"
       [zap_Error err; zap_String "path" dir]).

(** A line written to a console stream that records console logging as on. *)
Definition console_line (x : Writer * Line) : Prop :=
  is_console (fst x) = true
  ∧ zap_Bool "consoleLogging" true ∈ line_fields (snd x).

(** [child] is [parent] with [args] added to its bound fields: the same
    encoder, writers, level cell and caller options. *)
Definition extends (parent child : Logger) (args : list Field) : Prop :=
  enc (core child) = enc (core parent)
  ∧ out (core child) = out (core parent)
  ∧ level (core child) = level (core parent)
  ∧ ctx (core child) = ctx (core parent) ++ args
  ∧ addCaller child = addCaller parent
  ∧ callerSkip child = callerSkip parent
  ∧ development child = development parent.

(** The state once a child entry is allocated after a map of [n] entries
    was iterated. *)
Definition with_child (ce : LogEntry) (n : nat) (w : World) : World :=
  set_entries (entries w ++ [ce]) (set_iter (drop n (iter w)) w).

(** The fields [convertFields] makes of key/value pairs. *)
Definition as_fields (kvs : list (string * Value)) : list Field :=
  map (λ kv, zap_Any (fst kv) (snd kv)) kvs.

(** ** Sample environments and inputs *)

Definition mkdir_succeeds : string → option string := λ _, None.

Definition mkdir_fails_at (dir : string) : string → option string := λ d,
  if bool_decide (d = dir) then Some "mkdir: permission denied" else None.

(** The state a program starts in. *)
Definition world0 : World := init_world mkdir_succeeds [].

(** The initial default entry and its info logger. *)
Definition entry0 : LogEntry :=
  match entries world0 with
  | e :: _ => e
  | [] =>
      let lg := mkLogger (mkCore (JSONEncoder
                  (mkEncoderConfig "" "" "" "" "" "" "" None None None None))
                  (Multi []) 0 []) false 0 false in
      mkLogEntry (mkSugared lg) (mkSugared lg) lg lg
  end.

Definition logger0 : Logger := infoLogger entry0.

(** A map of two fields. *)
Definition fields_ab : Fields := {[ "a" := VInt 1; "b" := VInt 2 ]}.

(** A state whose file system refuses to create "/var/locked". *)
Definition world_locked : World := init_world (mkdir_fails_at "/var/locked") [].

(** File logging into "/var/locked", at a given level. *)
Definition config_locked (lvl : Z) : Config :=
  {| Level := lvl; EncodeLogsAsJson := false; FileLoggingEnabled := true;
     ConsoleLoggingEnabled := true; CallerEnabled := true; CallerSkip := 1;
     Directory := "/var/locked"; Filename := "app"; MaxSize := 1;
     MaxBackups := 1; MaxAge := 1; ConsoleInfoStream := None;
     ConsoleErrorStream := None; ConsoleSeparator := "|";
     LevelEncoder := None |}.

(** ** Computations step by step *)

Lemma add_written_nil w : add_written [] w = w.
Proof. destruct w; unfold add_written, set_written; simpl. by rewrite app_nil_r. Qed.

Lemma add_written_app a b w :
  add_written b (add_written a w) = add_written (a ++ b) w.
Proof. unfold add_written, set_written; simpl. by rewrite app_assoc. Qed.

Lemma Writers_Write_spec l ln w :
  Zap.Writers_Write l ln w =
  (if forallb nonnil l then Ret tt else Panic NilDereference,
   add_written (map (λ x, (x, ln)) (reached l)) w).
Proof.
  revert w. induction l as [|x l IH]; intros w; simpl.
  - by rewrite add_written_nil.
  - destruct x; simpl.
    + by rewrite add_written_nil.
    + unfold bind, modify; simpl. rewrite IH.
      unfold add_written, set_written; simpl. by rewrite <- app_assoc.
    + unfold bind, modify; simpl. rewrite IH.
      unfold add_written, set_written; simpl. by rewrite <- app_assoc.
Qed.

Lemma WriteSyncer_Write_spec ws ln w :
  Zap.WriteSyncer_Write ws ln w =
  (if healthy ws then Ret tt else Panic NilDereference,
   add_written (emitted ws ln) w).
Proof.
  destruct ws as [x|l]; simpl.
  - destruct x; unfold healthy, emitted; simpl;
      unfold panic, modify; simpl; by rewrite ?add_written_nil.
  - apply Writers_Write_spec.
Qed.

Lemma Logger_log_spec log lvl msg fields w L :
  levels w !! level (core log) = Some L →
  Zap.Logger_log log lvl msg fields w =
  if bool_decide (L ≤ lvl) then
    (if healthy (out (core log)) then terminal log lvl msg
     else Panic NilDereference,
     add_written (emitted (out (core log)) (Zap.lineOf log lvl msg fields)) w)
  else (if bool_decide (lvl < DPanicLevel) then Ret tt
        else terminal log lvl msg, w).
Proof.
  intros HL.
  unfold Zap.Logger_log, Zap.AtomicLevel_Enabled, Zap.AtomicLevel_Level, bind, ret.
  rewrite HL. destruct (bool_decide (L ≤ lvl)); simpl.
  - rewrite andb_false_r. rewrite WriteSyncer_Write_spec.
    destruct (healthy (out (core log))); [|done].
    unfold terminal, panic, os_Exit.
    repeat (case_match; try done).
  - rewrite andb_true_r. destruct (bool_decide (lvl < DPanicLevel)); [done|].
    unfold terminal, panic, os_Exit.
    repeat (case_match; try done).
Qed.

Lemma Logger_log_disabled log lvl msg fields w L :
  levels w !! level (core log) = Some L → lvl < L →
  snd (Zap.Logger_log log lvl msg fields w) = w.
Proof.
  intros HL Hlt. rewrite (Logger_log_spec _ _ _ _ _ _ HL).
  rewrite bool_decide_eq_false_2; [done | lia].
Qed.

Lemma SugaredLogger_log_disabled s lvl template args w L :
  levels w !! level (core (base s)) = Some L → lvl < L →
  snd (Zap.SugaredLogger_log s lvl template args w) = w.
Proof.
  intros HL Hlt.
  unfold Zap.SugaredLogger_log, Zap.AtomicLevel_Enabled, Zap.AtomicLevel_Level,
    bind, ret.
  rewrite HL. rewrite (bool_decide_eq_false_2 (L ≤ lvl)); [|lia]. simpl.
  rewrite andb_true_r. destruct (bool_decide (lvl < DPanicLevel)); [done|].
  destruct (Zap.getMessage template args w) as [[m| | |] w1] eqn:Hm.
  all: assert (w1 = w) as ->
    by (revert Hm; unfold Zap.getMessage, ret;
        repeat (case_match; try congruence)).
  all: try done.
  by apply Logger_log_disabled with L.
Qed.

(** ** The invariant *)

Lemma same_gate_spec a e :
  same_gate a e = true →
  level (core (infoLogger e)) = a ∧ level (core (errorLogger e)) = a
  ∧ level (core (base (infoSugared e))) = a
  ∧ level (core (base (errorSugared e))) = a.
Proof.
  unfold same_gate. rewrite !andb_true_iff, !bool_decide_eq_true. tauto.
Qed.

Lemma entry_ok_spec n e :
  entry_ok n e = true →
  (level (core (infoLogger e)) < n ∧ level (core (errorLogger e)) < n
  ∧ level (core (base (infoSugared e))) < n
  ∧ level (core (base (errorSugared e))) < n)%nat.
Proof.
  unfold entry_ok. rewrite !andb_true_iff, !bool_decide_eq_true. tauto.
Qed.

Lemma entry_ok_mono n m e : (n ≤ m)%nat → entry_ok n e = true → entry_ok m e = true.
Proof.
  intros Hle H%entry_ok_spec. unfold entry_ok.
  rewrite !andb_true_iff, !bool_decide_eq_true. lia.
Qed.

Lemma entries_ok_lookup n es i e :
  forallb (entry_ok n) es = true → es !! i = Some e → entry_ok n e = true.
Proof.
  intros H Hi. apply Is_true_true_2, forallb_True in H.
  apply Is_true_true_1. by eapply (Forall_lookup_1 _ _ _ _ H).
Qed.

Lemma wf_spec w :
  wf w = true →
  ∃ a d e, loglv w = Some a ∧ DefaultZapLogger w = Addr d
    ∧ entries w !! d = Some e ∧ same_gate a e = true
    ∧ (a < length (levels w))%nat
    ∧ forallb (entry_ok (length (levels w))) (entries w) = true.
Proof.
  unfold wf. rewrite andb_true_iff. intros [Hall Hd].
  destruct (loglv w) as [a|]; [|done].
  destruct (DefaultZapLogger w) as [|d]; [done|].
  destruct (entries w !! d) as [e|] eqn:He; [|done].
  exists a, d, e. repeat split; try done.
  pose proof (entries_ok_lookup _ _ _ _ Hall He) as Hok%entry_ok_spec.
  apply same_gate_spec in Hd. lia.
Qed.

Lemma wf_add_written suffix w : wf (add_written suffix w) = wf w.
Proof. done. Qed.

Lemma default_spec w :
  wf w = true →
  ∃ a e, loglv w = Some a ∧ defaultEntry w = (Ret e, w) ∧ same_gate a e = true
    ∧ (a < length (levels w))%nat.
Proof.
  intros (a & d & e & Ha & Hd & He & Hg & Hlt & _)%wf_spec.
  exists a, e. repeat split; try done.
  unfold defaultEntry, bind, get, load. by rewrite Hd, He.
Qed.

Lemma SetLevel_spec w X :
  wf w = true →
  ∃ a, loglv w = Some a ∧ (a < length (levels w))%nat
    ∧ SetLevel X w = (Ret tt, set_levels (<[a:=X]> (levels w)) w)
    ∧ wf (set_levels (<[a:=X]> (levels w)) w) = true.
Proof.
  intros Hwf. pose proof Hwf as (a & d & e & Ha & Hd & He & Hg & Hlt & Hall)%wf_spec.
  exists a. repeat split; try done.
  - unfold SetLevel, bind, get, Zap.AtomicLevel_SetLevel. rewrite Ha.
    by rewrite bool_decide_eq_true_2.
  - unfold wf in *. simpl. by rewrite length_insert.
Qed.

Lemma Enabled_spec a s w L :
  levels w !! a = Some L →
  Zap.AtomicLevel_Enabled a s w = (Ret (bool_decide (L ≤ s)), w).
Proof.
  intros HL. unfold Zap.AtomicLevel_Enabled, Zap.AtomicLevel_Level, bind, ret.
  by rewrite HL.
Qed.

Lemma package_calls_disabled w msg fields X a :
  wf w = true → loglv w = Some a → levels w !! a = Some X →
  (DebugLevel < X → snd (Debugv msg fields w) = w)
  ∧ (InfoLevel < X → snd (Infov msg fields w) = w)
  ∧ (WarnLevel < X → snd (Warnv msg fields w) = w)
  ∧ (ErrorLevel < X → snd (Errorv msg fields w) = w)
  ∧ (DPanicLevel < X → snd (DPanicv msg fields w) = w)
  ∧ (PanicLevel < X → snd (Panicv msg fields w) = w)
  ∧ (FatalLevel < X → snd (Fatalv msg fields w) = w).
Proof.
  intros Hwf Ha HX.
  destruct (default_spec w Hwf) as (a' & e & Ha' & Hd & Hg & _).
  assert (a' = a) as -> by congruence.
  apply same_gate_spec in Hg as (Hi & He & _).
  unfold Debugv, Panicv, Errorv, Warnv, Infov, Fatalv, DPanicv,
    Zap.Logger_Debug, Zap.Logger_Panic, Zap.Logger_Error, Zap.Logger_Warn,
    Zap.Logger_Info, Zap.Logger_Fatal, Zap.Logger_DPanic, bind.
  rewrite Hd.
  repeat split; intros Hlt; eapply Logger_log_disabled; eauto; congruence.
Qed.

Lemma enabled_iff (L s : Z) : bool_decide (L ≤ s) = true ↔ L ≤ s.
Proof. apply bool_decide_eq_true. Qed.

(** ** The level gate *)

(** C1. A logger whose cell holds [L] has severity [s] enabled exactly when
    [s >= L]; a call at a severity below [L] leaves the trace of writes as it
    was, for the structured and the sugared front end.  [SetLevel X] returns,
    [GetLevel] then reads [X], the four loggers of the default entry then
    have exactly the severities [>= X] enabled, and each package-level call
    at a severity below [X] writes nothing. *)
Theorem level_gate (w : World) (log : Logger) (L s X : Z)
    (msg template : string) (fields : list Field) (args : list Value) :
  wf w = true →
  levels w !! level (core log) = Some L →
  (∃ b, Zap.AtomicLevel_Enabled (level (core log)) s w = (Ret b, w)
        ∧ (b = true ↔ L ≤ s))
  ∧ (s < L →
       written (snd (Zap.Logger_log log s msg fields w)) = written w
       ∧ written (snd (Zap.SugaredLogger_log (mkSugared log) s template args w))
         = written w)
  ∧ ∃ w' d,
      SetLevel X w = (Ret tt, w') ∧ GetLevel w' = (Ret X, w')
      ∧ defaultEntry w' = (Ret d, w')
      ∧ (∀ lg s',
           lg ∈ [infoLogger d; errorLogger d;
                 base (infoSugared d); base (errorSugared d)] →
           ∃ b, Zap.AtomicLevel_Enabled (level (core lg)) s' w' = (Ret b, w')
                ∧ (b = true ↔ X ≤ s'))
      ∧ (DebugLevel < X → written (snd (Debugv msg fields w')) = written w')
      ∧ (InfoLevel < X → written (snd (Infov msg fields w')) = written w')
      ∧ (WarnLevel < X → written (snd (Warnv msg fields w')) = written w')
      ∧ (ErrorLevel < X → written (snd (Errorv msg fields w')) = written w')
      ∧ (DPanicLevel < X → written (snd (DPanicv msg fields w')) = written w')
      ∧ (PanicLevel < X → written (snd (Panicv msg fields w')) = written w')
      ∧ (FatalLevel < X → written (snd (Fatalv msg fields w')) = written w').
Proof.
  intros Hwf HL. split; [|split].
  - exists (bool_decide (L ≤ s)). split; [by apply Enabled_spec | apply enabled_iff].
  - intros Hlt. split.
    + by rewrite (Logger_log_disabled _ _ _ _ _ _ HL Hlt).
    + by rewrite (SugaredLogger_log_disabled (mkSugared log) _ _ _ _ _ HL Hlt).
  - destruct (SetLevel_spec w X Hwf) as (a & Ha & Hlt & Hset & Hwf').
    set (w' := set_levels (<[a:=X]> (levels w)) w) in *.
    assert (levels w' !! a = Some X) as HX
      by (simpl; by apply list_lookup_insert_eq).
    assert (loglv w' = Some a) as Ha' by done.
    destruct (default_spec w' Hwf') as (a' & d & Ha'' & Hd & Hg & _).
    assert (a' = a) as -> by congruence.
    exists w', d. split; [done|]. split.
    { unfold GetLevel, bind, get, Zap.AtomicLevel_Level. by rewrite Ha', HX. }
    split; [done|]. split.
    { intros lg s' Hin. exists (bool_decide (X ≤ s')).
      split; [|apply enabled_iff]. apply Enabled_spec.
      apply same_gate_spec in Hg as (H1 & H2 & H3 & H4).
      set_unfold. destruct Hin as [->|[->|[->|[->|[]]]]]; congruence. }
    destruct (package_calls_disabled w' msg fields X a Hwf' Ha' HX)
      as (H1 & H2 & H3 & H4 & H5 & H6 & H7).
    repeat split; intros Hlt'; by rewrite ?H1, ?H2, ?H3, ?H4, ?H5, ?H6, ?H7.
Qed.

Lemma level_gate_witness :
  wf world0 = true
  ∧ levels world0 !! level (core logger0) = Some DebugLevel
  ∧ ∃ w', SetLevel ErrorLevel world0 = (Ret tt, w')
          ∧ GetLevel w' = (Ret ErrorLevel, w')
          ∧ written (snd (Infov "m" [] w')) = written w'.
Proof.
  split; [reflexivity|]. split; [reflexivity|].
  destruct (level_gate world0 logger0 DebugLevel InfoLevel ErrorLevel
              "m" "t" [] [] eq_refl eq_refl)
    as (_ & _ & w' & d & Hset & Hget & _ & _ & _ & Hinfo & _).
  exists w'. split; [exact Hset|]. split; [exact Hget|].
  apply Hinfo. reflexivity.
Defined.

(** ** Calls on the default logger *)

Lemma default_add_written suffix w d :
  defaultEntry w = (Ret d, w) →
  defaultEntry (add_written suffix w) = (Ret d, add_written suffix w).
Proof.
  unfold defaultEntry, bind, get, load; simpl.
  destruct (DefaultZapLogger w) as [|a]; [done|].
  destruct (entries w !! a); [|done]. by intros [= ->].
Qed.

Lemma Warnv_spec w d L msg fields :
  defaultEntry w = (Ret d, w) →
  levels w !! level (core (errorLogger d)) = Some L →
  Warnv msg fields w =
  if bool_decide (L ≤ WarnLevel) then
    (if healthy (out (core (errorLogger d))) then Ret tt
     else Panic NilDereference,
     add_written (emitted (out (core (errorLogger d)))
                    (Zap.lineOf (errorLogger d) WarnLevel msg fields)) w)
  else (Ret tt, w).
Proof.
  intros Hd HL. unfold Warnv, bind. rewrite Hd.
  unfold Zap.Logger_Warn. by rewrite (Logger_log_spec _ _ _ _ _ _ HL).
Qed.

(** C10. At a level outside Debug, Info, Warn, Error, Panic and Fatal,
    [AtLevel] is two [Warnv] calls on the default logger: one with the
    message "Logging at unkown level" and the level as its field, one with
    the given message and fields.  With Warn enabled and no nil writer in
    the error channel both lines are written, at Warn severity, to the
    writers of the error channel, in this order; with Warn disabled nothing
    is written. *)
Theorem AtLevel_unknown_level (w : World) (lvl : Z) (msg : string)
    (fields : list Field) :
  wf w = true →
  lvl ∉ [DebugLevel; InfoLevel; WarnLevel; ErrorLevel; PanicLevel; FatalLevel] →
  ∃ d L,
    defaultEntry w = (Ret d, w)
    ∧ levels w !! level (core (errorLogger d)) = Some L
    ∧ AtLevel lvl msg fields w =
        (Warnv "Logging at unkown level" [zap_Any "level" (VLevel lvl)] ;;;
         Warnv msg fields) w
    ∧ (L ≤ WarnLevel → healthy (out (core (errorLogger d))) = true →
       AtLevel lvl msg fields w =
         (Ret tt,
          add_written
            (emitted (out (core (errorLogger d)))
               (mkLine (enc (core (errorLogger d))) WarnLevel
                  "Logging at unkown level"
                  (if addCaller (errorLogger d)
                   then Some (callerSkip (errorLogger d)) else None)
                  (ctx (core (errorLogger d))
                   ++ [zap_Any "level" (VLevel lvl)]))
             ++ emitted (out (core (errorLogger d)))
               (mkLine (enc (core (errorLogger d))) WarnLevel msg
                  (if addCaller (errorLogger d)
                   then Some (callerSkip (errorLogger d)) else None)
                  (ctx (core (errorLogger d)) ++ fields))) w))
    ∧ (WarnLevel < L → AtLevel lvl msg fields w = (Ret tt, w)).
Proof.
  intros Hwf Hlvl.
  destruct (default_spec w Hwf) as (a & d & Ha & Hd & Hg & Hlt).
  apply same_gate_spec in Hg as (_ & He & _).
  destruct (lookup_lt_is_Some_2 (levels w) a Hlt) as [L HL].
  rewrite <- He in HL.
  exists d, L. split; [done|]. split; [done|].
  assert (AtLevel lvl msg fields w =
          (Warnv "Logging at unkown level" [zap_Any "level" (VLevel lvl)] ;;;
           Warnv msg fields) w) as Heq.
  { unfold AtLevel. set_unfold.
    repeat (rewrite bool_decide_eq_false_2; [|naive_solver]). done. }
  split; [done|]. split.
  - intros Hen Hh. rewrite Heq. unfold bind at 1.
    rewrite (Warnv_spec _ _ _ _ _ Hd HL).
    rewrite bool_decide_eq_true_2 by done. rewrite Hh.
    rewrite (Warnv_spec _ d L); [|by apply default_add_written|done].
    rewrite bool_decide_eq_true_2 by done. rewrite Hh.
    by rewrite add_written_app.
  - intros Hdis. rewrite Heq. unfold bind at 1.
    rewrite (Warnv_spec _ _ _ _ _ Hd HL).
    rewrite bool_decide_eq_false_2 by lia.
    rewrite (Warnv_spec _ _ _ _ _ Hd HL).
    by rewrite bool_decide_eq_false_2 by lia.
Qed.

Lemma AtLevel_unknown_level_witness :
  wf world0 = true
  ∧ (DPanicLevel ∉ [DebugLevel; InfoLevel; WarnLevel; ErrorLevel;
                     PanicLevel; FatalLevel])
  ∧ ∃ d L, defaultEntry world0 = (Ret d, world0)
      ∧ levels world0 !! level (core (errorLogger d)) = Some L
      ∧ AtLevel DPanicLevel "boom" [] world0 =
          (Warnv "Logging at unkown level" [zap_Any "level" (VLevel DPanicLevel)] ;;;
           Warnv "boom" []) world0.
Proof.
  assert (DPanicLevel ∉ [DebugLevel; InfoLevel; WarnLevel; ErrorLevel;
                         PanicLevel; FatalLevel]) as Hnot.
  { unfold DPanicLevel, DebugLevel, InfoLevel, WarnLevel, ErrorLevel,
      PanicLevel, FatalLevel. set_unfold. lia. }
  split; [reflexivity|]. split; [exact Hnot|].
  destruct (AtLevel_unknown_level world0 DPanicLevel "boom" [] eq_refl Hnot)
    as (d & L & Hd & HL & Heq & _).
  exists d, L. split; [exact Hd|]. split; [exact HL|]. exact Heq.
Defined.

(** ** Loggers in contexts *)

(** C8. A context derived by attaching a logger yields that logger on
    retrieval, in every later state of the package; the package-level
    attach stores the default logger of the time of the call; a context
    with nothing bound to the package's key yields the current default
    logger. *)
Theorem context_round_trip (w : World) (bs bs0 : list (Ctx.CtxKey * Ctx.CtxVal))
    (le : Ptr) :
  Ctx.lookup bs0 loggerKey = None →
  (∃ c', ContextWithCustomizedLogger (Some bs) le w = (Ret c', w)
         ∧ ∀ w2, FromContext c' w2 = (Ret le, w2))
  ∧ (∃ c', LogEntry_ContextWithLogger le (Some bs) w = (Ret c', w)
           ∧ ∀ w2, FromContext c' w2 = (Ret le, w2))
  ∧ (∃ c', ContextWithLogger (Some bs) w = (Ret c', w)
           ∧ ∀ w2, FromContext c' w2 = (Ret (DefaultZapLogger w), w2))
  ∧ FromContext (Some bs0) w = (Ret (DefaultZapLogger w), w).
Proof.
  intros Hnone. repeat split.
  - eexists. split; [reflexivity|]. intros w2.
    reflexivity.
  - eexists. split; [reflexivity|]. intros w2.
    reflexivity.
  - eexists. split; [reflexivity|]. intros w2.
    reflexivity.
  - unfold FromContext, bind, Ctx.Value, ret; simpl. by rewrite Hnone.
Qed.

Lemma context_round_trip_witness :
  Ctx.lookup [(Ctx.ForeignKey "user", Ctx.OtherVal (VString "u1"))] loggerKey = None
  ∧ (∃ c', ContextWithCustomizedLogger Ctx.Background (Addr 7) world0 = (Ret c', world0)
           ∧ ∀ w2, FromContext c' w2 = (Ret (Addr 7), w2))
  ∧ FromContext (Some [(Ctx.ForeignKey "user", Ctx.OtherVal (VString "u1"))]) world0
    = (Ret (DefaultZapLogger world0), world0).
Proof.
  split; [reflexivity|].
  destruct (context_round_trip world0 []
              [(Ctx.ForeignKey "user", Ctx.OtherVal (VString "u1"))]
              (Addr 7) eq_refl) as (H1 & _ & _ & H4).
  split; [exact H1 | exact H4].
Defined.

(** ** Call styles *)

Lemma styles_agree_on_default w msg fields :
  LogEntry_Debug (DefaultZapLogger w) msg w = Debug msg w
  ∧ LogEntry_Debugv (DefaultZapLogger w) msg fields w = Debugv msg fields w
  ∧ LogEntry_Infov (DefaultZapLogger w) msg fields w = Infov msg fields w
  ∧ LogEntry_Warnv (DefaultZapLogger w) msg fields w = Warnv msg fields w
  ∧ LogEntry_Errorv (DefaultZapLogger w) msg fields w = Errorv msg fields w.
Proof. done. Qed.

(** C6. On the initial default logger, [Debugf("n=%d", 5)] of the package
    writes the message "n=5", and the method [Debugf] of the same logger,
    with the same arguments, writes "n=[5]": the method hands its argument
    slice to zap as one operand.  With no operands the package function
    writes the template, the method the template followed by the
    extra-operand marker. *)
Theorem Debugf_method_differs :
  map (λ x, line_msg (snd x)) (written (snd (Debugf "n=%d" [VInt 5] world0)))
    = ["n=5"]
  ∧ map (λ x, line_msg (snd x))
      (written (snd (LogEntry_Debugf (DefaultZapLogger world0) "n=%d" [VInt 5] world0)))
    = ["n=[5]"]
  ∧ map (λ x, line_msg (snd x)) (written (snd (Debugf "hello" [] world0)))
    = ["hello"]
  ∧ map (λ x, line_msg (snd x))
      (written (snd (LogEntry_Debugf (DefaultZapLogger world0) "hello" [] world0)))
    = ["hello%!(EXTRA []interface {}=[])"].
Proof. vm_compute. done. Qed.

(** ** Building and installing a logger *)

Lemma newZapLogger_spec config io eo isDefault w :
  ∃ e,
    built io eo (length (levels w)) e
    ∧ newZapLogger config io eo isDefault w =
      (Ret (Addr (length (entries w))),
       mkWorld (levels w ++ [Level config]) (entries w ++ [e])
         (DefaultZapLogger w)
         (if isDefault then Some (length (levels w)) else loglv w)
         (MkdirAll_err w) (iter w) (written w)).
Proof.
  unfold newZapLogger, bind, Zap.NewAtomicLevelAt, getLogEntry, alloc, modify, ret.
  destruct isDefault, (CallerEnabled config); simpl;
    (eexists; split; [|reflexivity]); eexists; simpl; repeat split.
Qed.

Lemma built_same_gate io eo a e : built io eo a e → same_gate a e = true.
Proof.
  intros (en & Hi & He & Hsi & Hse & _). unfold same_gate.
  rewrite Hsi, Hse. simpl. rewrite Hi, He. simpl.
  by rewrite !bool_decide_eq_true_2.
Qed.

Lemma same_gate_entry_ok a n e : (a < n)%nat → same_gate a e = true → entry_ok n e = true.
Proof.
  intros Hlt (H1 & H2 & H3 & H4)%same_gate_spec. unfold entry_ok.
  rewrite !andb_true_iff, !bool_decide_eq_true. lia.
Qed.

Lemma entries_ok_snoc n m es e :
  (n ≤ m)%nat → forallb (entry_ok n) es = true → entry_ok m e = true →
  forallb (entry_ok m) (es ++ [e]) = true.
Proof.
  intros Hle Hes He. rewrite forallb_app. simpl. rewrite He. simpl.
  rewrite andb_true_r.
  apply forallb_forall. intros x Hx.
  eapply entry_ok_mono; [exact Hle|].
  by apply (proj1 (forallb_forall _ _) Hes).
Qed.

Lemma entries_ok_of_wf w :
  wf w = true → forallb (entry_ok (length (levels w))) (entries w) = true.
Proof. unfold wf. rewrite andb_true_iff. tauto. Qed.

Lemma wf_installed config io eo e w :
  forallb (entry_ok (length (levels w))) (entries w) = true →
  built io eo (length (levels w)) e →
  wf (installed config e w) = true.
Proof.
  intros Hes Hb. unfold wf, installed; simpl.
  rewrite length_app; simpl.
  pose proof (built_same_gate _ _ _ _ Hb) as Hg.
  rewrite (entries_ok_snoc (length (levels w))); [| lia | done |].
  - simpl. by rewrite list_lookup_middle.
  - apply (same_gate_entry_ok (length (levels w))); [lia|done].
Qed.

Lemma DeclareLogger_eq config logv :
  DeclareLogger config logv = logv "logging configured" (declaration config).
Proof. done. Qed.

Lemma package_v_spec w d :
  defaultEntry w = (Ret d, w) →
  (∀ msg fields, Infov msg fields w = Zap.Logger_log (infoLogger d) InfoLevel msg fields w)
  ∧ (∀ msg fields, Errorv msg fields w = Zap.Logger_log (errorLogger d) ErrorLevel msg fields w).
Proof.
  intros Hd. split; intros msg fields.
  - unfold Infov, bind. by rewrite Hd.
  - unfold Errorv, bind. by rewrite Hd.
Qed.

Lemma defaultEntry_installed config e w :
  defaultEntry (installed config e w) = (Ret e, installed config e w).
Proof.
  unfold defaultEntry, bind, get, load, installed; simpl.
  by rewrite list_lookup_middle.
Qed.

(** The two "logging configured" calls on an entry whose cell holds
    [Level config]. *)
Lemma declare_both {A} config e w (infov errorv : string → list Field → M unit)
    (r : A) :
  (∀ suffix msg fields,
     infov msg fields (add_written suffix w)
     = Zap.Logger_log (infoLogger e) InfoLevel msg fields (add_written suffix w)) →
  (∀ suffix msg fields,
     errorv msg fields (add_written suffix w)
     = Zap.Logger_log (errorLogger e) ErrorLevel msg fields (add_written suffix w)) →
  levels w !! level (core (infoLogger e)) = Some (Level config) →
  levels w !! level (core (errorLogger e)) = Some (Level config) →
  (DeclareLogger config infov ;;; DeclareLogger config errorv ;;; ret r) w
  = (if declares config e then Ret r else Panic NilDereference,
     add_written (declared config e) w).
Proof.
  intros Hinfo Herr HLi HLe.
  rewrite !DeclareLogger_eq. unfold declares, declared.
  unfold bind at 1.
  rewrite <- (add_written_nil w) at 1. rewrite Hinfo, add_written_nil.
  rewrite (Logger_log_spec _ _ _ _ _ _ HLi).
  destruct (bool_decide (Level config ≤ InfoLevel)); simpl.
  - destruct (healthy (out (core (infoLogger e)))); simpl; [|by rewrite app_nil_r].
    unfold bind at 1. rewrite Herr.
    rewrite (Logger_log_spec _ _ _ _ _ (Level config)) by done.
    destruct (bool_decide (Level config ≤ ErrorLevel)); simpl.
    + rewrite add_written_app.
      by destruct (healthy (out (core (errorLogger e)))).
    + by rewrite app_nil_r.
  - unfold bind at 1.
    rewrite <- (add_written_nil w) at 1. rewrite Herr, add_written_nil.
    rewrite (Logger_log_spec _ _ _ _ _ (Level config)) by done.
    destruct (bool_decide (Level config ≤ ErrorLevel)); simpl.
    + by destruct (healthy (out (core (errorLogger e)))).
    + by rewrite add_written_nil.
Qed.

(** The second half of [Configure], from the writer lists on. *)
Lemma Configure_tail config iw ew w :
  ∃ e,
    built (NewMultiWriteSyncer iw) (NewMultiWriteSyncer ew) (length (levels w)) e
    ∧ (p <- newZapLogger config (NewMultiWriteSyncer iw)
              (NewMultiWriteSyncer ew) true ;;
       modify (set_DefaultZapLogger p) ;;;
       DeclareLogger config Infov ;;;
       DeclareLogger config Errorv ;;;
       ret (None : option string)) w
      = (if declares config e then Ret None else Panic NilDereference,
         add_written (declared config e) (installed config e w)).
Proof.
  destruct (newZapLogger_spec config (NewMultiWriteSyncer iw)
              (NewMultiWriteSyncer ew) true w) as (e & Hb & Hnew).
  exists e. split; [done|].
  unfold bind at 1. rewrite Hnew.
  unfold bind at 1. unfold modify at 1.
  change (set_DefaultZapLogger _ _) with (installed config e w).
  pose proof (defaultEntry_installed config e w) as Hd.
  destruct Hb as (en & Hi & He & _).
  apply declare_both.
  - intros suffix msg fields.
    apply (proj1 (package_v_spec _ e (default_add_written _ _ _ Hd))).
  - intros suffix msg fields.
    apply (proj2 (package_v_spec _ e (default_add_written _ _ _ Hd))).
  - rewrite Hi. simpl. by apply list_lookup_middle.
  - rewrite He. simpl. by apply list_lookup_middle.
Qed.

Lemma load_allocated config e w :
  load (Addr (length (entries w))) (allocated config e w)
  = (Ret e, allocated config e w).
Proof. unfold load, allocated; simpl. by rewrite list_lookup_middle. Qed.

(** The second half of [NewLogEntry]. *)
Lemma NewLogEntry_tail config iw ew w :
  ∃ e,
    built (NewMultiWriteSyncer iw) (NewMultiWriteSyncer ew) (length (levels w)) e
    ∧ (logEntry <- newZapLogger config (NewMultiWriteSyncer iw)
                     (NewMultiWriteSyncer ew) false ;;
       DeclareLogger config (LogEntry_Infov logEntry) ;;;
       DeclareLogger config (LogEntry_Errorv logEntry) ;;;
       ret logEntry) w
      = (if declares config e then Ret (Addr (length (entries w)))
         else Panic NilDereference,
         add_written (declared config e) (allocated config e w)).
Proof.
  destruct (newZapLogger_spec config (NewMultiWriteSyncer iw)
              (NewMultiWriteSyncer ew) false w) as (e & Hb & Hnew).
  exists e. split; [done|].
  unfold bind at 1. rewrite Hnew.
  change (mkWorld _ _ _ _ _ _ _) with (allocated config e w).
  pose proof (load_allocated config e w) as Hd.
  destruct Hb as (en & Hi & He & _).
  apply declare_both.
  - intros suffix msg fields. unfold LogEntry_Infov, bind.
    unfold load in *. simpl in *. destruct (_ !! _); [|done]. by inversion Hd.
  - intros suffix msg fields. unfold LogEntry_Errorv, bind.
    unfold load in *. simpl in *. destruct (_ !! _); [|done]. by inversion Hd.
  - rewrite Hi. simpl. by apply list_lookup_middle.
  - rewrite He. simpl. by apply list_lookup_middle.
Qed.

Lemma built_out io eo a e :
  built io eo a e →
  out (core (infoLogger e)) = io ∧ out (core (errorLogger e)) = eo
  ∧ level (core (infoLogger e)) = a ∧ level (core (errorLogger e)) = a
  ∧ ctx (core (infoLogger e)) = [] ∧ ctx (core (errorLogger e)) = [].
Proof. intros (en & -> & -> & _). done. Qed.

Lemma declares_healthy config e :
  healthy (out (core (infoLogger e))) = true →
  healthy (out (core (errorLogger e))) = true →
  declares config e = true.
Proof. intros Hi He. unfold declares. rewrite Hi, He. by rewrite !orb_true_r. Qed.

Lemma bind_Ret {A B} (m : M A) (k : A → M B) w a w' :
  m w = (Ret a, w') → bind m k w = k a w'.
Proof. intros H. unfold bind. by rewrite H. Qed.

Lemma bind_Panic {A B} (m : M A) (k : A → M B) w p w' :
  m w = (Panic p, w') → bind m k w = (Panic p, w').
Proof. intros H. unfold bind. by rewrite H. Qed.

(** ** [newRollingFile] *)

Lemma newRollingFile_ok dir filename maxSize maxAge maxBackups w :
  MkdirAll_err w dir = None →
  newRollingFile dir filename maxSize maxAge maxBackups w
  = (Ret (WRolling (mkLumberjack (path_Join dir filename)
                      maxSize maxAge maxBackups true)), w).
Proof.
  intros Hok. unfold newRollingFile, bind, os_MkdirAll, get. by rewrite Hok.
Qed.

Lemma newRollingFile_fail dir filename maxSize maxAge maxBackups w err d L :
  MkdirAll_err w dir = Some err →
  defaultEntry w = (Ret d, w) →
  levels w !! level (core (errorLogger d)) = Some L →
  newRollingFile dir filename maxSize maxAge maxBackups w
  = if bool_decide (L ≤ ErrorLevel) then
      (if healthy (out (core (errorLogger d))) then Ret WNil
       else Panic NilDereference,
       add_written
         (emitted (out (core (errorLogger d)))
            (Zap.lineOf (errorLogger d) ErrorLevel "failed create log directory"
               [zap_Error err; zap_String "path" dir])) w)
    else (Ret WNil, w).
Proof.
  intros Herr Hd HL.
  unfold newRollingFile, os_MkdirAll. unfold bind at 1. unfold get.
  rewrite Herr. unfold bind.
  rewrite (proj2 (package_v_spec _ _ Hd)).
  rewrite (Logger_log_spec _ _ _ _ _ _ HL).
  destruct (bool_decide (L ≤ ErrorLevel)); simpl; [|done].
  by destruct (healthy (out (core (errorLogger d)))).
Qed.

(** ** [Configure] and [NewLogEntry], case by case *)

Lemma Configure_console_only config w :
  FileLoggingEnabled config = false →
  ∃ e,
    built (Single (info_console config)) (Single (error_console config))
          (length (levels w)) e
    ∧ Configure config w
      = (Ret None,
         add_written (declared (with_ConsoleLoggingEnabled true config) e)
           (installed (with_ConsoleLoggingEnabled true config) e w)).
Proof.
  intros Hfile.
  destruct (Configure_tail (with_ConsoleLoggingEnabled true config)
              [info_console config] [error_console config] w)
    as (e & Hb & Heq).
  exists e. split; [exact Hb|].
  destruct (built_out _ _ _ _ Hb) as (Hoi & Hoe & _).
  rewrite declares_healthy in Heq.
  - rewrite <- Heq. unfold Configure, Configure_writers. rewrite Hfile.
    unfold info_console, error_console.
    destruct config as [? ? ? ? ? ? ? ? ? ? ? ci ce ? ?]; simpl.
    by destruct ci, ce.
  - rewrite Hoi. simpl. unfold info_console. by destruct (ConsoleInfoStream config).
  - rewrite Hoe. simpl. unfold error_console. by destruct (ConsoleErrorStream config).
Qed.

Lemma NewLogEntry_console_only config w :
  FileLoggingEnabled config = false →
  ∃ e,
    built (Single (WConsole Stdout)) (Single (WConsole Stderr))
          (length (levels w)) e
    ∧ NewLogEntry config w
      = (Ret (Addr (length (entries w))),
         add_written (declared (with_ConsoleLoggingEnabled true config) e)
           (allocated (with_ConsoleLoggingEnabled true config) e w)).
Proof.
  intros Hfile.
  destruct (NewLogEntry_tail (with_ConsoleLoggingEnabled true config)
              [WConsole Stdout] [WConsole Stderr] w)
    as (e & Hb & Heq).
  exists e. split; [exact Hb|].
  destruct (built_out _ _ _ _ Hb) as (Hoi & Hoe & _).
  rewrite declares_healthy in Heq.
  - rewrite <- Heq. unfold NewLogEntry. by rewrite Hfile.
  - by rewrite Hoi.
  - by rewrite Hoe.
Qed.

Lemma Configure_writers_files config w :
  FileLoggingEnabled config = true →
  MkdirAll_err w (Directory config) = None →
  Configure_writers config w
  = (Ret (config,
          rolling config InfoLevel
          :: (if ConsoleLoggingEnabled config then [info_console config] else []),
          rolling config ErrorLevel
          :: (if ConsoleLoggingEnabled config then [error_console config] else [])),
     w).
Proof.
  intros Hfile Hok.
  unfold Configure_writers. rewrite Hfile.
  rewrite (bind_Ret _ _ w
             (config, [rolling config InfoLevel], [rolling config ErrorLevel]) w).
  2: { rewrite (bind_Ret _ _ w _ w (newRollingFile_ok _ _ _ _ _ _ Hok)).
       by rewrite (bind_Ret _ _ w _ w (newRollingFile_ok _ _ _ _ _ _ Hok)). }
  unfold info_console, error_console, rolling.
  by destruct (ConsoleLoggingEnabled config), (ConsoleInfoStream config),
    (ConsoleErrorStream config).
Qed.

Lemma Configure_files config w :
  FileLoggingEnabled config = true →
  MkdirAll_err w (Directory config) = None →
  ∃ e,
    built
      (NewMultiWriteSyncer
         (rolling config InfoLevel
          :: if ConsoleLoggingEnabled config then [info_console config] else []))
      (NewMultiWriteSyncer
         (rolling config ErrorLevel
          :: if ConsoleLoggingEnabled config then [error_console config] else []))
      (length (levels w)) e
    ∧ Configure config w
      = (Ret None, add_written (declared config e) (installed config e w)).
Proof.
  intros Hfile Hok.
  destruct (Configure_tail config
              (rolling config InfoLevel
               :: if ConsoleLoggingEnabled config then [info_console config] else [])
              (rolling config ErrorLevel
               :: if ConsoleLoggingEnabled config then [error_console config] else [])
              w)
    as (e & Hb & Heq).
  exists e. split; [exact Hb|].
  destruct (built_out _ _ _ _ Hb) as (Hoi & Hoe & _).
  rewrite declares_healthy in Heq.
  - rewrite <- Heq. unfold Configure. unfold bind at 1.
    by rewrite (Configure_writers_files _ _ Hfile Hok).
  - rewrite Hoi. unfold info_console, rolling.
    by destruct (ConsoleLoggingEnabled config), (ConsoleInfoStream config).
  - rewrite Hoe. unfold error_console, rolling.
    by destruct (ConsoleLoggingEnabled config), (ConsoleErrorStream config).
Qed.

Lemma rolling_pair_ok config w :
  MkdirAll_err w (Directory config) = None →
  (infoLog <- newRollingFile (Directory config)
                (getNameByLogLevel (Filename config) InfoLevel)
                (MaxSize config) (MaxAge config) (MaxBackups config) ;;
   errLog <- newRollingFile (Directory config)
                (getNameByLogLevel (Filename config) ErrorLevel)
                (MaxSize config) (MaxAge config) (MaxBackups config) ;;
   ret (config, [infoLog], [errLog])) w
  = (Ret (config, [rolling config InfoLevel], [rolling config ErrorLevel]), w).
Proof.
  intros Hok.
  rewrite (bind_Ret _ _ w _ w (newRollingFile_ok _ _ _ _ _ _ Hok)).
  by rewrite (bind_Ret _ _ w _ w (newRollingFile_ok _ _ _ _ _ _ Hok)).
Qed.

Lemma rolling_pair_fail config w err d L :
  MkdirAll_err w (Directory config) = Some err →
  defaultEntry w = (Ret d, w) →
  levels w !! level (core (errorLogger d)) = Some L →
  (infoLog <- newRollingFile (Directory config)
                (getNameByLogLevel (Filename config) InfoLevel)
                (MaxSize config) (MaxAge config) (MaxBackups config) ;;
   errLog <- newRollingFile (Directory config)
                (getNameByLogLevel (Filename config) ErrorLevel)
                (MaxSize config) (MaxAge config) (MaxBackups config) ;;
   ret (config, [infoLog], [errLog])) w
  = if bool_decide (L ≤ ErrorLevel) then
      if healthy (out (core (errorLogger d))) then
        (Ret (config, [WNil], [WNil]),
         add_written (mkdir_report d err (Directory config)
                      ++ mkdir_report d err (Directory config)) w)
      else (Panic NilDereference,
            add_written (mkdir_report d err (Directory config)) w)
    else (Ret (config, [WNil], [WNil]), w).
Proof.
  intros Herr Hd HL.
  pose proof (newRollingFile_fail (Directory config)
                (getNameByLogLevel (Filename config) InfoLevel)
                (MaxSize config) (MaxAge config) (MaxBackups config)
                w err d L Herr Hd HL) as H1.
  fold (mkdir_report d err (Directory config)) in H1.
  destruct (bool_decide (L ≤ ErrorLevel)) eqn:Hen.
  - destruct (healthy (out (core (errorLogger d)))) eqn:Hh.
    + rewrite (bind_Ret _ _ _ _ _ H1).
      set (w1 := add_written (mkdir_report d err (Directory config)) w).
      pose proof (newRollingFile_fail (Directory config)
                (getNameByLogLevel (Filename config) ErrorLevel)
                (MaxSize config) (MaxAge config) (MaxBackups config)
                w1 err d L Herr (default_add_written _ _ _ Hd) HL) as H2.
      fold (mkdir_report d err (Directory config)) in H2.
      rewrite Hen, Hh in H2.
      rewrite (bind_Ret _ _ _ _ _ H2). unfold ret, w1.
      by rewrite add_written_app.
    + by rewrite (bind_Panic _ _ _ _ _ H1).
  - rewrite (bind_Ret _ _ _ _ _ H1).
    pose proof (newRollingFile_fail (Directory config)
                (getNameByLogLevel (Filename config) ErrorLevel)
                (MaxSize config) (MaxAge config) (MaxBackups config)
                w err d L Herr Hd HL) as H2.
    rewrite Hen in H2.
    by rewrite (bind_Ret _ _ _ _ _ H2).
Qed.

Lemma add_written_installed a b config e w :
  add_written b (installed config e (add_written a w))
  = add_written (a ++ b) (installed config e w).
Proof. unfold add_written, installed, set_written; simpl. by rewrite app_assoc. Qed.

Lemma add_written_allocated a b config e w :
  add_written b (allocated config e (add_written a w))
  = add_written (a ++ b) (allocated config e w).
Proof. unfold add_written, allocated, set_written; simpl. by rewrite app_assoc. Qed.

Lemma Configure_mkdir_fails config w err d L :
  FileLoggingEnabled config = true →
  MkdirAll_err w (Directory config) = Some err →
  defaultEntry w = (Ret d, w) →
  levels w !! level (core (errorLogger d)) = Some L →
  if bool_decide (L ≤ ErrorLevel) && negb (healthy (out (core (errorLogger d))))
  then Configure config w
       = (Panic NilDereference,
          add_written (mkdir_report d err (Directory config)) w)
  else
    ∃ e,
      built
        (NewMultiWriteSyncer
           (WNil :: if ConsoleLoggingEnabled config then [info_console config] else []))
        (NewMultiWriteSyncer
           (WNil :: if ConsoleLoggingEnabled config then [error_console config] else []))
        (length (levels w)) e
      ∧ Configure config w
        = (if declares config e then Ret None else Panic NilDereference,
           add_written
             ((if bool_decide (L ≤ ErrorLevel)
               then mkdir_report d err (Directory config)
                    ++ mkdir_report d err (Directory config)
               else []) ++ declared config e)
             (installed config e w)).
Proof.
  intros Hfile Herr Hd HL.
  pose proof (rolling_pair_fail config w err d L Herr Hd HL) as Hpair.
  assert (∀ w0 : World,
    (let '(config0, infoWriters, errWriters) := (config, [WNil], [WNil]) in
     if ConsoleLoggingEnabled config0 then
       ret (config0,
            match ConsoleInfoStream config0 with
            | Some f => infoWriters ++ [WConsole f]
            | None => infoWriters ++ [WConsole Stdout]
            end,
            match ConsoleErrorStream config0 with
            | Some f => errWriters ++ [WConsole f]
            | None => errWriters ++ [WConsole Stderr]
            end)
     else ret (config0, infoWriters, errWriters)) w0
    = (Ret (config,
            WNil :: (if ConsoleLoggingEnabled config then [info_console config] else []),
            WNil :: (if ConsoleLoggingEnabled config then [error_console config] else [])),
       w0)) as Hcons.
  { intros w0. unfold info_console, error_console.
    by destruct (ConsoleLoggingEnabled config), (ConsoleInfoStream config),
      (ConsoleErrorStream config). }
  destruct (bool_decide (L ≤ ErrorLevel)) eqn:Hen;
    [destruct (healthy (out (core (errorLogger d)))) eqn:Hh|]; simpl.
  - set (w0 := add_written (mkdir_report d err (Directory config)
                            ++ mkdir_report d err (Directory config)) w) in *.
    destruct (Configure_tail config
      (WNil :: if ConsoleLoggingEnabled config then [info_console config] else [])
      (WNil :: if ConsoleLoggingEnabled config then [error_console config] else [])
      w0) as (e & Hb & Heq).
    exists e. split; [exact Hb|].
    unfold w0 in Heq. rewrite add_written_installed in Heq. rewrite <- Heq.
    unfold Configure. unfold bind at 1.
    unfold Configure_writers. rewrite Hfile.
    unfold bind at 1. rewrite Hpair. fold w0. by rewrite Hcons.
  - unfold Configure. unfold bind at 1.
    unfold Configure_writers. rewrite Hfile.
    unfold bind at 1. by rewrite Hpair.
  - destruct (Configure_tail config
      (WNil :: if ConsoleLoggingEnabled config then [info_console config] else [])
      (WNil :: if ConsoleLoggingEnabled config then [error_console config] else [])
      w) as (e & Hb & Heq).
    exists e. split; [exact Hb|].
    rewrite <- Heq.
    unfold Configure. unfold bind at 1.
    unfold Configure_writers. rewrite Hfile.
    unfold bind at 1. rewrite Hpair. by rewrite Hcons.
Qed.

(** ** Console-only configurations *)

Lemma declared_console config e i o :
  ConsoleLoggingEnabled config = true →
  out (core (infoLogger e)) = Single (WConsole i) →
  out (core (errorLogger e)) = Single (WConsole o) →
  Forall console_line (declared config e).
Proof.
  intros Hc Hi He. unfold declared. rewrite Hi, He.
  assert (zap_Bool "consoleLogging" true ∈ declaration config) as Hin.
  { unfold declaration. rewrite Hc. set_solver. }
  apply Forall_app. split.
  - destruct (bool_decide (Level config ≤ InfoLevel)); [|constructor].
    unfold emitted; simpl. apply Forall_cons. split; [|constructor].
    split; [done|]. simpl. apply elem_of_app. by right.
  - destruct (_ && _); [|constructor].
    unfold emitted; simpl. apply Forall_cons. split; [|constructor].
    split; [done|]. simpl. apply elem_of_app. by right.
Qed.

(** C3. With [FileLoggingEnabled] false, [Configure] returns nil and
    installs an entry whose info channel writes to the configured console
    info stream (standard output when none is given) and whose error
    channel writes to the configured console error stream (standard error
    when none is given), and to nothing else; [NewLogEntry] returns an
    entry whose channels write to standard output and standard error, and
    to nothing else.  Whatever [ConsoleLoggingEnabled] was, every line
    either function writes goes to a console stream and records
    consoleLogging as true. *)
Theorem console_only_without_files (config : Config) (w : World) :
  FileLoggingEnabled config = false →
  (∃ e,
     Configure config w
     = (Ret None,
        add_written (declared (with_ConsoleLoggingEnabled true config) e)
          (installed (with_ConsoleLoggingEnabled true config) e w))
     ∧ writers (out (core (infoLogger e))) = [info_console config]
     ∧ writers (out (core (errorLogger e))) = [error_console config]
     ∧ writers (out (core (base (infoSugared e)))) = [info_console config]
     ∧ writers (out (core (base (errorSugared e)))) = [error_console config]
     ∧ is_console (info_console config) = true
     ∧ is_console (error_console config) = true
     ∧ Forall console_line
         (declared (with_ConsoleLoggingEnabled true config) e))
  ∧ (∃ e,
       NewLogEntry config w
       = (Ret (Addr (length (entries w))),
          add_written (declared (with_ConsoleLoggingEnabled true config) e)
            (allocated (with_ConsoleLoggingEnabled true config) e w))
       ∧ writers (out (core (infoLogger e))) = [WConsole Stdout]
       ∧ writers (out (core (errorLogger e))) = [WConsole Stderr]
       ∧ writers (out (core (base (infoSugared e)))) = [WConsole Stdout]
       ∧ writers (out (core (base (errorSugared e)))) = [WConsole Stderr]
       ∧ Forall console_line
           (declared (with_ConsoleLoggingEnabled true config) e)).
Proof.
  intros Hfile. split.
  - destruct (Configure_console_only config w Hfile) as (e & Hb & Heq).
    exists e. split; [exact Heq|].
    pose proof Hb as (en & Hi & He & Hsi & Hse & _).
    rewrite Hsi, Hse. simpl. rewrite Hi, He. simpl.
    repeat split; try done.
    + unfold info_console. by destruct (ConsoleInfoStream config).
    + unfold error_console. by destruct (ConsoleErrorStream config).
    + unfold info_console, error_console in *.
      destruct (ConsoleInfoStream config), (ConsoleErrorStream config);
        eapply declared_console; try done; by (rewrite Hi || rewrite He).
  - destruct (NewLogEntry_console_only config w Hfile) as (e & Hb & Heq).
    exists e. split; [exact Heq|].
    pose proof Hb as (en & Hi & He & Hsi & Hse & _).
    rewrite Hsi, Hse. simpl. rewrite Hi, He. simpl.
    repeat split; try done.
    eapply declared_console; try done; by (rewrite Hi || rewrite He).
Qed.

Lemma console_only_without_files_witness :
  FileLoggingEnabled defaultConfig = false
  ∧ ∃ e,
      Configure defaultConfig world0
      = (Ret None,
         add_written (declared (with_ConsoleLoggingEnabled true defaultConfig) e)
           (installed (with_ConsoleLoggingEnabled true defaultConfig) e world0))
      ∧ writers (out (core (infoLogger e))) = [WConsole Stdout]
      ∧ writers (out (core (errorLogger e))) = [WConsole Stderr].
Proof.
  split; [reflexivity|].
  destruct (console_only_without_files defaultConfig world0 eq_refl)
    as ((e & Heq & Hi & He & _) & _).
  exists e. split; [exact Heq|]. split; [exact Hi | exact He].
Defined.

(** ** Names of the rolling files *)

Lemma Replace_no_occurrence old new s :
  occurs old s = false → Replace_from old new 0 s = s.
Proof.
  induction s as [|c s IH]; [done|].
  cbn [occurs]. intros [Hp Ho]%orb_false_iff.
  cbn [Replace_from]. rewrite Hp. by rewrite IH.
Qed.

(** C7. With file logging on and the directory in place, [Configure]
    returns nil and the first writer of the info channel is the rolling
    file [path.Join(Directory, stem + "info.log")], the first writer of the
    error channel the rolling file [path.Join(Directory, stem +
    "error.log")], where [stem] is empty for an empty [Filename] and
    otherwise [Filename] with every occurrence of ".log" removed, followed
    by "_"; every further writer is a console stream.  For a [Filename]
    without ".log" the names are [Filename_info.log] and
    [Filename_error.log]. *)
Theorem rolling_file_names (config : Config) (w : World) :
  FileLoggingEnabled config = true →
  MkdirAll_err w (Directory config) = None →
  let stem :=
    if bool_decide (Filename config ≠ "")
    then strings_Replace (Filename config) ".log" "" +:+ "_" else "" in
  (∃ e rest_i rest_e,
     Configure config w
     = (Ret None, add_written (declared config e) (installed config e w))
     ∧ writers (out (core (infoLogger e)))
       = WRolling (mkLumberjack
           (path_Join (Directory config) (stem +:+ "info.log"))
           (MaxSize config) (MaxAge config) (MaxBackups config) true) :: rest_i
     ∧ writers (out (core (errorLogger e)))
       = WRolling (mkLumberjack
           (path_Join (Directory config) (stem +:+ "error.log"))
           (MaxSize config) (MaxAge config) (MaxBackups config) true) :: rest_e
     ∧ Forall (λ x, is_console x = true) rest_i
     ∧ Forall (λ x, is_console x = true) rest_e)
  ∧ (Filename config = "" → stem = "")
  ∧ (Filename config ≠ "" → occurs ".log" (Filename config) = false →
     stem = Filename config +:+ "_").
Proof.
  intros Hfile Hok stem. split; [|split].
  - destruct (Configure_files config w Hfile Hok) as (e & Hb & Heq).
    destruct (built_out _ _ _ _ Hb) as (Hoi & Hoe & _).
    exists e,
      (if ConsoleLoggingEnabled config then [info_console config] else []),
      (if ConsoleLoggingEnabled config then [error_console config] else []).
    split; [exact Heq|]. rewrite Hoi, Hoe.
    repeat split.
    + by destruct (ConsoleLoggingEnabled config).
    + by destruct (ConsoleLoggingEnabled config).
    + unfold info_console.
      destruct (ConsoleLoggingEnabled config), (ConsoleInfoStream config);
        repeat constructor.
    + unfold error_console.
      destruct (ConsoleLoggingEnabled config), (ConsoleErrorStream config);
        repeat constructor.
  - intros HF. unfold stem. by rewrite bool_decide_eq_false_2 by naive_solver.
  - intros HF Hno. unfold stem. rewrite bool_decide_eq_true_2 by done.
    unfold strings_Replace. by rewrite Replace_no_occurrence.
Qed.

Lemma rolling_file_names_witness :
  FileLoggingEnabled (DefaultRotateLoggerConfig "svc") = true
  ∧ MkdirAll_err world0 (Directory (DefaultRotateLoggerConfig "svc")) = None
  ∧ ∃ e rest_i,
      Configure (DefaultRotateLoggerConfig "svc") world0
      = (Ret None,
         add_written (declared (DefaultRotateLoggerConfig "svc") e)
           (installed (DefaultRotateLoggerConfig "svc") e world0))
      ∧ writers (out (core (infoLogger e)))
        = WRolling (mkLumberjack (path_Join "logs" "svc_info.log") 128 90 10 true)
          :: rest_i.
Proof.
  split; [reflexivity|]. split; [reflexivity|].
  destruct (rolling_file_names (DefaultRotateLoggerConfig "svc") world0
              eq_refl eq_refl) as ((e & ri & re & Heq & Hi & _) & _).
  exists e, ri. split; [exact Heq | exact Hi].
Defined.

(** C7, as stated, fails for the names "app.log" and "my.logger": the info
    file of the first is "app_info.log", not "app.log_info.log", and the
    error file of the second is "myger_error.log". *)
Lemma rolling_file_names_counterexample :
  getNameByLogLevel "app.log" InfoLevel = "app_info.log"
  ∧ getNameByLogLevel "app.log" InfoLevel ≠ "app.log" +:+ "_info.log"
  ∧ getNameByLogLevel "my.logger" ErrorLevel = "myger_error.log"
  ∧ getNameByLogLevel "my.logger" ErrorLevel ≠ "my.logger" +:+ "_error.log".
Proof. repeat split; done. Qed.

(** ** What [Configure] returns and leaves behind *)


Lemma default_gate w :
  wf w = true →
  ∃ d L, defaultEntry w = (Ret d, w)
    ∧ levels w !! level (core (errorLogger d)) = Some L.
Proof.
  intros Hwf.
  destruct (default_spec w Hwf) as (a & d & Ha & Hd & Hg & Hlt).
  apply same_gate_spec in Hg as (_ & He & _).
  destruct (lookup_lt_is_Some_2 (levels w) a Hlt) as [L HL].
  exists d, L. split; [done|]. by rewrite He.
Qed.

Lemma Configure_spec config w :
  wf w = true →
  ∃ suffix,
    Configure config w = (Panic NilDereference, add_written suffix w)
    ∨ ∃ e config' io eo,
        built io eo (length (levels w)) e
        ∧ Configure config w
          = (if declares config' e then Ret None else Panic NilDereference,
             add_written suffix (installed config' e w)).
Proof.
  intros Hwf.
  destruct (FileLoggingEnabled config) eqn:Hfile.
  - destruct (MkdirAll_err w (Directory config)) as [err|] eqn:Hmk.
    + destruct (default_gate w Hwf) as (d & L & Hd & HL).
      pose proof (Configure_mkdir_fails config w err d L Hfile Hmk Hd HL) as H.
      destruct (_ && _).
      * eexists. left. exact H.
      * destruct H as (e & Hb & Heq). eexists. right.
        exists e, config. do 2 eexists. split; [exact Hb | exact Heq].
    + destruct (Configure_files config w Hfile Hmk) as (e & Hb & Heq).
      eexists. right. exists e, config. do 2 eexists.
      split; [exact Hb|]. rewrite Heq.
      destruct (built_out _ _ _ _ Hb) as (Hoi & Hoe & _).
      rewrite declares_healthy; [done| |].
      * rewrite Hoi. unfold info_console, rolling.
        by destruct (ConsoleLoggingEnabled config), (ConsoleInfoStream config).
      * rewrite Hoe. unfold error_console, rolling.
        by destruct (ConsoleLoggingEnabled config), (ConsoleErrorStream config).
  - destruct (Configure_console_only config w Hfile) as (e & Hb & Heq).
    eexists. right. exists e, (with_ConsoleLoggingEnabled true config).
    do 2 eexists. split; [exact Hb|]. rewrite Heq.
    destruct (built_out _ _ _ _ Hb) as (Hoi & Hoe & _).
    rewrite declares_healthy; [done| |].
    + rewrite Hoi. unfold info_console. by destruct (ConsoleInfoStream config).
    + rewrite Hoe. unfold error_console. by destruct (ConsoleErrorStream config).
Qed.




(** ** Child loggers *)

Lemma pick_Permutation {A} (choices : list nat) (l : list A) :
  pick choices l (length l) ≡ₚ l.
Proof.
  remember (length l) as n eqn:Hn. revert choices l Hn.
  induction n as [|n IH]; intros choices l Hn.
  - by destruct l.
  - simpl.
    destruct (l !! (hd 0%nat choices `mod` length l)%nat) as [x|] eqn:Hx.
    + etrans; [|symmetry; apply (delete_Permutation _ _ _ Hx)].
      apply Permutation_skip.
      apply IH. rewrite length_delete; [lia | by eexists].
    + apply lookup_ge_None in Hx.
      assert (length l ≠ 0)%nat as Hne by lia.
      pose proof (Nat.mod_upper_bound (hd 0%nat choices) (length l) Hne). lia.
Qed.

Lemma pick_singleton {A} (choices : list nat) (x : A) :
  pick choices [x] 1 = [x].
Proof. cbn [pick length]. by rewrite Nat.mod_1_r. Qed.

Lemma convertFields_spec f w :
  convertFields f w
  = (Ret (as_fields (pick (iter w) (map_to_list f) (length (map_to_list f)))),
     set_iter (drop (length (map_to_list f)) (iter w)) w).
Proof. done. Qed.

Lemma Logger_With_extends log args : extends log (Zap.Logger_With log args) args.
Proof.
  destruct args as [|a args]; simpl.
  - unfold extends. by rewrite app_nil_r.
  - done.
Qed.

Lemma newLogEntry_eq p f : newLogEntry p f = LogEntry_WithFields p f.
Proof. done. Qed.

Lemma LogEntry_WithFields_spec parent pe f w :
  load parent w = (Ret pe, w) →
  ∃ args ce,
    args ≡ₚ as_fields (map_to_list f)
    ∧ (∀ k v, f = {[ k := v ]} → args = [zap_Any k v])
    ∧ extends (infoLogger pe) (infoLogger ce) args
    ∧ extends (errorLogger pe) (errorLogger ce) args
    ∧ infoSugared ce = Zap.Sugar (infoLogger ce)
    ∧ errorSugared ce = Zap.Sugar (errorLogger ce)
    ∧ LogEntry_WithFields parent f w
      = (Ret (Addr (length (entries w))),
         with_child ce (length (map_to_list f)) w).
Proof.
  intros Hload.
  set (args := as_fields (pick (iter w) (map_to_list f) (length (map_to_list f)))).
  exists args,
    (mkLogEntry (Zap.Sugar (Zap.Logger_With (infoLogger pe) args))
                (Zap.Sugar (Zap.Logger_With (errorLogger pe) args))
                (Zap.Logger_With (infoLogger pe) args)
                (Zap.Logger_With (errorLogger pe) args)).
  split; [|split; [|split; [|split; [|split; [|split]]]]]; try done.
  - unfold args, as_fields. by rewrite pick_Permutation.
  - intros k v ->. unfold args. rewrite map_to_list_singleton.
    change (length [(k, v)]) with 1%nat. by rewrite pick_singleton.
  - apply Logger_With_extends.
  - apply Logger_With_extends.
  - unfold LogEntry_WithFields. unfold bind at 1.
    rewrite convertFields_spec. fold args.
    unfold bind, load, alloc in *. simpl.
    destruct parent as [|a]; [done|].
    destruct (entries w !! a); [|done]. by inversion Hload.
Qed.

Lemma load_with_child_parent parent pe ce n w :
  load parent w = (Ret pe, w) →
  load parent (with_child ce n w) = (Ret pe, with_child ce n w).
Proof.
  unfold load. simpl. destruct parent as [|a]; [done|].
  destruct (entries w !! a) as [e|] eqn:He; [|done].
  intros [= ->]. by rewrite (lookup_app_l_Some _ _ _ _ He).
Qed.

Lemma load_with_child ce n w :
  load (Addr (length (entries w))) (with_child ce n w)
  = (Ret ce, with_child ce n w).
Proof. unfold load. simpl. by rewrite list_lookup_middle. Qed.

Lemma load_add_written p e suffix w :
  load p w = (Ret e, w) →
  load p (add_written suffix w) = (Ret e, add_written suffix w).
Proof.
  unfold load. simpl. destruct p as [|a]; [done|].
  destruct (entries w !! a); [|done]. by intros [= ->].
Qed.

Lemma load_valid p e w : load p w = (Ret e, w) → ∃ a, p = Addr a ∧ entries w !! a = Some e.
Proof.
  unfold load. destruct p as [|a]; [done|].
  destruct (entries w !! a) eqn:He; [|done]. intros [= ->]. eauto.
Qed.

Lemma LogEntry_v_spec p e w :
  load p w = (Ret e, w) →
  (∀ msg fields,
     LogEntry_Infov p msg fields w
     = Zap.Logger_log (infoLogger e) InfoLevel msg fields w)
  ∧ (∀ msg fields,
       LogEntry_Errorv p msg fields w
       = Zap.Logger_log (errorLogger e) ErrorLevel msg fields w).
Proof.
  intros Hl. split; intros msg fields.
  - unfold LogEntry_Infov, bind. by rewrite Hl.
  - unfold LogEntry_Errorv, bind. by rewrite Hl.
Qed.

Lemma child_line parent child args lvl msg fields :
  extends parent child args →
  Zap.lineOf child lvl msg fields
  = mkLine (enc (core parent)) lvl msg
      (if addCaller parent then Some (callerSkip parent) else None)
      (ctx (core parent) ++ args ++ fields).
Proof.
  intros (He & _ & _ & Hc & Ha & Hs & _). unfold Zap.lineOf.
  by rewrite He, Hc, Ha, Hs, app_assoc.
Qed.

Lemma extends_trans a b c x y :
  extends a b x → extends b c y → extends a c (x ++ y).
Proof.
  intros (H1 & H2 & H3 & H4 & H5 & H6 & H7) (G1 & G2 & G3 & G4 & G5 & G6 & G7).
  unfold extends. rewrite G1, G2, G3, G4, G5, G6, G7, H4, app_assoc. done.
Qed.

Lemma Infov_on_child p ce parent args w L msg fields :
  load p w = (Ret ce, w) →
  extends parent (infoLogger ce) args →
  levels w !! level (core parent) = Some L →
  L ≤ InfoLevel →
  healthy (out (core parent)) = true →
  LogEntry_Infov p msg fields w
  = (Ret tt,
     add_written
       (emitted (out (core parent))
          (mkLine (enc (core parent)) InfoLevel msg
             (if addCaller parent then Some (callerSkip parent) else None)
             (ctx (core parent) ++ args ++ fields))) w).
Proof.
  intros Hl Hext HL Hen Hh.
  rewrite (proj1 (LogEntry_v_spec _ _ _ Hl)).
  pose proof Hext as (_ & Ho & Hlv & _).
  rewrite (Logger_log_spec _ _ _ _ _ L) by (by rewrite Hlv).
  rewrite bool_decide_eq_true_2 by done.
  rewrite Ho, Hh. by rewrite (child_line _ _ _ _ _ _ Hext).
Qed.

Lemma Errorv_on_child p ce parent args w L msg fields :
  load p w = (Ret ce, w) →
  extends parent (errorLogger ce) args →
  levels w !! level (core parent) = Some L →
  L ≤ ErrorLevel →
  healthy (out (core parent)) = true →
  LogEntry_Errorv p msg fields w
  = (Ret tt,
     add_written
       (emitted (out (core parent))
          (mkLine (enc (core parent)) ErrorLevel msg
             (if addCaller parent then Some (callerSkip parent) else None)
             (ctx (core parent) ++ args ++ fields))) w).
Proof.
  intros Hl Hext HL Hen Hh.
  rewrite (proj2 (LogEntry_v_spec _ _ _ Hl)).
  pose proof Hext as (_ & Ho & Hlv & _).
  rewrite (Logger_log_spec _ _ _ _ _ L) by (by rewrite Hlv).
  rewrite bool_decide_eq_true_2 by done.
  rewrite Ho, Hh. by rewrite (child_line _ _ _ _ _ _ Hext).
Qed.

Lemma extends_refl log : extends log log [].
Proof. unfold extends. by rewrite app_nil_r. Qed.

(** C4. [WithFields] on a valid parent returns the address of a newly
    allocated entry, different from the parent's.  Every entry allocated
    before, the parent included, is as it was, and so are the level cells,
    the package variables and the trace.  Both loggers of the new entry
    have the parent's encoder, writers, level cell and caller options, and
    the parent's bound fields followed by the fields made of the map.  An
    enabled call on the child writes the parent's fields, the bound fields
    and the call's fields; a later call on the parent writes the parent's
    fields and the call's fields only.  The package-level [WithFields] and
    [WithField] are this method on the default logger, the latter with the
    single binding of [k] to [v]. *)
Theorem WithFields_new_logger (w : World) (parent : Ptr) (pe : LogEntry)
    (f : Fields) (k v : string) :
  load parent w = (Ret pe, w) →
  ∃ args ce w1,
    LogEntry_WithFields parent f w = (Ret (Addr (length (entries w))), w1)
    ∧ Addr (length (entries w)) ≠ parent
    ∧ load (Addr (length (entries w))) w1 = (Ret ce, w1)
    ∧ load parent w1 = (Ret pe, w1)
    ∧ (∀ a e, entries w !! a = Some e → entries w1 !! a = Some e)
    ∧ levels w1 = levels w
    ∧ written w1 = written w
    ∧ DefaultZapLogger w1 = DefaultZapLogger w
    ∧ loglv w1 = loglv w
    ∧ args ≡ₚ as_fields (map_to_list f)
    ∧ (f = {[ k := VString v ]} → args = [zap_Any k (VString v)])
    ∧ extends (infoLogger pe) (infoLogger ce) args
    ∧ extends (errorLogger pe) (errorLogger ce) args
    ∧ infoSugared ce = Zap.Sugar (infoLogger ce)
    ∧ errorSugared ce = Zap.Sugar (errorLogger ce)
    ∧ (∀ msg fields L suffix,
         levels w !! level (core (infoLogger pe)) = Some L →
         L ≤ InfoLevel →
         healthy (out (core (infoLogger pe))) = true →
         LogEntry_Infov (Addr (length (entries w))) msg fields w1
         = (Ret tt,
            add_written
              (emitted (out (core (infoLogger pe)))
                 (mkLine (enc (core (infoLogger pe))) InfoLevel msg
                    (if addCaller (infoLogger pe)
                     then Some (callerSkip (infoLogger pe)) else None)
                    (ctx (core (infoLogger pe)) ++ args ++ fields))) w1)
         ∧ LogEntry_Infov parent msg fields (add_written suffix w1)
           = (Ret tt,
              add_written
                (emitted (out (core (infoLogger pe)))
                   (mkLine (enc (core (infoLogger pe))) InfoLevel msg
                      (if addCaller (infoLogger pe)
                       then Some (callerSkip (infoLogger pe)) else None)
                      (ctx (core (infoLogger pe)) ++ fields)))
                (add_written suffix w1)))
    ∧ (∀ msg fields L suffix,
         levels w !! level (core (errorLogger pe)) = Some L →
         L ≤ ErrorLevel →
         healthy (out (core (errorLogger pe))) = true →
         LogEntry_Errorv (Addr (length (entries w))) msg fields w1
         = (Ret tt,
            add_written
              (emitted (out (core (errorLogger pe)))
                 (mkLine (enc (core (errorLogger pe))) ErrorLevel msg
                    (if addCaller (errorLogger pe)
                     then Some (callerSkip (errorLogger pe)) else None)
                    (ctx (core (errorLogger pe)) ++ args ++ fields))) w1)
         ∧ LogEntry_Errorv parent msg fields (add_written suffix w1)
           = (Ret tt,
              add_written
                (emitted (out (core (errorLogger pe)))
                   (mkLine (enc (core (errorLogger pe))) ErrorLevel msg
                      (if addCaller (errorLogger pe)
                       then Some (callerSkip (errorLogger pe)) else None)
                      (ctx (core (errorLogger pe)) ++ fields)))
                (add_written suffix w1)))
    ∧ (parent = DefaultZapLogger w →
       WithFields f w = LogEntry_WithFields parent f w
       ∧ WithField k v w = LogEntry_WithFields parent {[ k := VString v ]} w).
Proof.
  intros Hload.
  destruct (LogEntry_WithFields_spec parent pe f w Hload)
    as (args & ce & Hperm & Hsingle & Hei & Hee & Hsi & Hse & Heq).
  destruct (load_valid _ _ _ Hload) as (a & -> & Ha).
  pose proof (lookup_lt_Some _ _ _ Ha) as Hlt.
  set (w1 := with_child ce (length (map_to_list f)) w) in *.
  pose proof (load_with_child ce (length (map_to_list f)) w) as Hlc. fold w1 in Hlc.
  pose proof (load_with_child_parent _ _ ce (length (map_to_list f)) _ Hload) as Hlp.
  fold w1 in Hlp.
  exists args, ce, w1.
  split; [done|]. split; [intros [= ?]; lia|].
  split; [done|]. split; [done|].
  split; [intros a' e' He'; simpl; by apply lookup_app_l_Some|].
  do 4 (split; [done|]). split; [done|]. split; [by apply Hsingle|].
  do 4 (split; [done|]).
  split; [|split].
  - intros msg fields L suffix HL Hen Hh. split.
    + by apply (Infov_on_child _ ce _ args _ L).
    + rewrite (Infov_on_child _ pe (infoLogger pe) [] _ L); try done.
      * by apply load_add_written.
      * apply extends_refl.
  - intros msg fields L suffix HL Hen Hh. split.
    + by apply (Errorv_on_child _ ce _ args _ L).
    + rewrite (Errorv_on_child _ pe (errorLogger pe) [] _ L); try done.
      * by apply load_add_written.
      * apply extends_refl.
  - intros Hdef. split.
    + unfold WithFields, bind, get. by rewrite <- Hdef.
    + unfold WithField, bind, get. by rewrite <- Hdef.
Qed.

Lemma WithFields_new_logger_witness :
  load (Addr 0) world0 = (Ret entry0, world0)
  ∧ ∃ ce w1,
      WithField "request_id" "r1" world0 = (Ret (Addr 1), w1)
      ∧ load (Addr 1) w1 = (Ret ce, w1)
      ∧ load (Addr 0) w1 = (Ret entry0, w1)
      ∧ extends (infoLogger entry0) (infoLogger ce)
          [zap_Any "request_id" (VString "r1")].
Proof.
  split; [reflexivity|].
  destruct (WithFields_new_logger world0 (Addr 0) entry0
              {[ "request_id" := VString "r1" ]} "request_id" "r1" eq_refl)
    as (args & ce & w1 & Heq & _ & Hlc & Hlp & _ & _ & _ & _ & _ & _ & Hargs
        & Hext & _ & _ & _ & _ & _ & Hpkg).
  exists ce, w1.
  split; [rewrite (proj2 (Hpkg eq_refl)); exact Heq|].
  split; [exact Hlc|]. split; [exact Hlp|].
  rewrite <- (Hargs eq_refl). exact Hext.
Defined.

(** ** Order of bound fields *)

(** C5, amended.  After two chained [WithFields] calls both loggers of
    the last entry carry the parent's bound fields, then the fields of the
    first call, then the fields of the second call, and an enabled call on
    it writes them in this order before the fields of the call.  The
    fields of one call are the map's entries in the order the iteration
    visits them: a permutation of the entries, the only one for a
    single-field map. *)
Theorem chained_fields_in_order (w : World) (parent : Ptr) (pe : LogEntry)
    (f1 f2 : Fields) :
  load parent w = (Ret pe, w) →
  ∃ args1 args2 c2 e2 w2,
    (c1 <- LogEntry_WithFields parent f1 ;; LogEntry_WithFields c1 f2) w
    = (Ret c2, w2)
    ∧ load c2 w2 = (Ret e2, w2)
    ∧ args1 ≡ₚ as_fields (map_to_list f1)
    ∧ args2 ≡ₚ as_fields (map_to_list f2)
    ∧ (∀ k v, f1 = {[ k := v ]} → args1 = [zap_Any k v])
    ∧ (∀ k v, f2 = {[ k := v ]} → args2 = [zap_Any k v])
    ∧ extends (infoLogger pe) (infoLogger e2) (args1 ++ args2)
    ∧ extends (errorLogger pe) (errorLogger e2) (args1 ++ args2)
    ∧ ∀ msg fields L,
        levels w !! level (core (infoLogger pe)) = Some L →
        L ≤ InfoLevel →
        healthy (out (core (infoLogger pe))) = true →
        LogEntry_Infov c2 msg fields w2
        = (Ret tt,
           add_written
             (emitted (out (core (infoLogger pe)))
                (mkLine (enc (core (infoLogger pe))) InfoLevel msg
                   (if addCaller (infoLogger pe)
                    then Some (callerSkip (infoLogger pe)) else None)
                   (ctx (core (infoLogger pe))
                    ++ (args1 ++ args2) ++ fields))) w2).
Proof.
  intros Hload.
  destruct (LogEntry_WithFields_spec parent pe f1 w Hload)
    as (args1 & e1 & Hp1 & Hs1 & Hei1 & Hee1 & _ & _ & Heq1).
  set (w1 := with_child e1 (length (map_to_list f1)) w) in *.
  pose proof (load_with_child e1 (length (map_to_list f1)) w) as Hl1. fold w1 in Hl1.
  destruct (LogEntry_WithFields_spec _ e1 f2 w1 Hl1)
    as (args2 & e2 & Hp2 & Hs2 & Hei2 & Hee2 & _ & _ & Heq2).
  set (w2 := with_child e2 (length (map_to_list f2)) w1) in *.
  pose proof (load_with_child e2 (length (map_to_list f2)) w1) as Hl2. fold w2 in Hl2.
  exists args1, args2, (Addr (length (entries w1))), e2, w2.
  split.
  { rewrite (bind_Ret _ _ _ _ _ Heq1).
    exact Heq2. }
  split; [done|]. do 4 (split; [done|]).
  pose proof (extends_trans _ _ _ _ _ Hei1 Hei2) as Hi.
  pose proof (extends_trans _ _ _ _ _ Hee1 Hee2) as He.
  do 2 (split; [done|]).
  intros msg fields L HL Hen Hh.
  by apply (Infov_on_child _ e2 _ (args1 ++ args2) _ L).
Qed.

Lemma chained_fields_in_order_witness :
  load (Addr 0) world0 = (Ret entry0, world0)
  ∧ ∃ c2 e2 w2,
      (c1 <- LogEntry_WithFields (Addr 0) {[ "k1" := VInt 1 ]} ;;
       LogEntry_WithFields c1 {[ "k2" := VInt 2 ]}) world0 = (Ret c2, w2)
      ∧ load c2 w2 = (Ret e2, w2)
      ∧ extends (infoLogger entry0) (infoLogger e2)
          ([zap_Any "k1" (VInt 1)] ++ [zap_Any "k2" (VInt 2)]).
Proof.
  split; [reflexivity|].
  destruct (chained_fields_in_order world0 (Addr 0) entry0
              {[ "k1" := VInt 1 ]} {[ "k2" := VInt 2 ]} eq_refl)
    as (a1 & a2 & c2 & e2 & w2 & Heq & Hl & _ & _ & H1 & H2 & Hext & _).
  exists c2, e2, w2. split; [exact Heq|]. split; [exact Hl|].
  rewrite <- (H1 _ _ eq_refl), <- (H2 _ _ eq_refl). exact Hext.
Defined.

(** C5, as stated, fails for two fields bound in one call: the same call
    in the same package state renders "a" before "b" under one iteration
    of the map and "b" before "a" under another, so no order fixed by the
    call is the rendered one. *)
Lemma chained_fields_counterexample :
  ¬ ∃ order : list string,
      ∀ it : list nat,
        map (λ x, map Key (line_fields (snd x)))
          (written (snd ((p <- WithFields fields_ab ;; LogEntry_Infov p "m" [])
                           (init_world mkdir_succeeds it))))
        = [order].
Proof.
  intros [order H].
  pose proof (H [0%nat]) as H0. pose proof (H [1%nat]) as H1.
  vm_compute in H0, H1. congruence.
Qed.

(** ** Which loggers [SetLevel] reaches *)

Lemma wf_allocated config io eo e w :
  wf w = true →
  built io eo (length (levels w)) e →
  wf (allocated config e w) = true.
Proof.
  intros Hwf Hb.
  pose proof Hwf as (a & d & e0 & Ha & Hd & He0 & Hg & Hlt & Hall)%wf_spec.
  unfold wf, allocated; simpl. rewrite length_app; simpl.
  rewrite (entries_ok_snoc (length (levels w))); [| lia | done |].
  - simpl. rewrite Ha, Hd. by rewrite (lookup_app_l_Some _ _ _ _ He0).
  - apply (same_gate_entry_ok (length (levels w))); [lia|].
    by eapply built_same_gate.
Qed.

Lemma wf_with_child parent pe ce args n w :
  wf w = true →
  load parent w = (Ret pe, w) →
  extends (infoLogger pe) (infoLogger ce) args →
  extends (errorLogger pe) (errorLogger ce) args →
  infoSugared ce = Zap.Sugar (infoLogger ce) →
  errorSugared ce = Zap.Sugar (errorLogger ce) →
  wf (with_child ce n w) = true.
Proof.
  intros Hwf Hl Hi He Hsi Hse.
  pose proof Hwf as (a & d & e0 & Ha & Hd & He0 & Hg & Hlt & Hall)%wf_spec.
  destruct (load_valid _ _ _ Hl) as (p & -> & Hp).
  pose proof (entries_ok_lookup _ _ _ _ Hall Hp) as Hok%entry_ok_spec.
  unfold wf, with_child; simpl.
  rewrite (entries_ok_snoc (length (levels w))); [| lia | done |].
  - simpl. rewrite Ha, Hd. by rewrite (lookup_app_l_Some _ _ _ _ He0).
  - destruct Hi as (_ & _ & Hli & _). destruct He as (_ & _ & Hle & _).
    unfold entry_ok. rewrite Hsi, Hse. simpl. rewrite Hli, Hle.
    rewrite !andb_true_iff, !bool_decide_eq_true. lia.
Qed.

Lemma SetLevel_then_GetLevel w X :
  wf w = true →
  ∃ a w',
    loglv w = Some a
    ∧ SetLevel X w = (Ret tt, w')
    ∧ GetLevel w' = (Ret X, w')
    ∧ entries w' = entries w
    ∧ levels w' !! a = Some X
    ∧ (∀ b, b ≠ a → levels w' !! b = levels w !! b).
Proof.
  intros Hwf.
  destruct (SetLevel_spec w X Hwf) as (a & Ha & Hlt & Hset & Hwf').
  exists a, (set_levels (<[a:=X]> (levels w)) w).
  assert (<[a:=X]> (levels w) !! a = Some X) as HX
    by (by apply list_lookup_insert_eq).
  repeat split; try done.
  - unfold GetLevel, bind, get, Zap.AtomicLevel_Level. simpl. rewrite Ha.
    simpl. by rewrite HX.
  - intros b Hb. simpl. by apply list_lookup_insert_ne.
Qed.

Lemma NewLogEntry_returns config w le w1 :
  wf w = true →
  NewLogEntry config w = (Ret le, w1) →
  ∃ e config' io eo suffix,
    Level config' = Level config
    ∧ built io eo (length (levels w)) e
    ∧ le = Addr (length (entries w))
    ∧ w1 = add_written suffix (allocated config' e w).
Proof.
  intros Hwf Hret.
  destruct (FileLoggingEnabled config) eqn:Hfile.
  - assert (NewLogEntry config w =
      (r <- (infoLog <- newRollingFile (Directory config)
                          (getNameByLogLevel (Filename config) InfoLevel)
                          (MaxSize config) (MaxAge config) (MaxBackups config) ;;
             errLog <- newRollingFile (Directory config)
                          (getNameByLogLevel (Filename config) ErrorLevel)
                          (MaxSize config) (MaxAge config) (MaxBackups config) ;;
             ret (config, [infoLog], [errLog])) ;;
       let '(config, infoWriters, errWriters) := r in
       logEntry <- newZapLogger config (NewMultiWriteSyncer infoWriters)
                     (NewMultiWriteSyncer errWriters) false ;;
       DeclareLogger config (LogEntry_Infov logEntry) ;;;
       DeclareLogger config (LogEntry_Errorv logEntry) ;;;
       ret logEntry) w) as Hunf.
    { unfold NewLogEntry. by rewrite Hfile. }
    rewrite Hunf in Hret. clear Hunf.
    destruct (MkdirAll_err w (Directory config)) as [err|] eqn:Hmk.
    + destruct (default_gate w Hwf) as (d & L & Hd & HL).
      pose proof (rolling_pair_fail config w err d L Hmk Hd HL) as Hpair.
      unfold bind at 1 in Hret. rewrite Hpair in Hret.
      destruct (bool_decide (L ≤ ErrorLevel));
        [destruct (healthy (out (core (errorLogger d))))|]; try done.
      * destruct (NewLogEntry_tail config [WNil] [WNil]
                    (add_written (mkdir_report d err (Directory config)
                                  ++ mkdir_report d err (Directory config)) w))
          as (e & Hb & Heq).
        cbv beta iota in Hret. rewrite Heq in Hret.
        destruct (declares config e); [|done].
        inversion Hret; subst. exists e, config. do 3 eexists.
        split; [done|]. split; [exact Hb|]. split; [done|].
        by rewrite add_written_allocated.
      * destruct (NewLogEntry_tail config [WNil] [WNil] w) as (e & Hb & Heq).
        cbv beta iota in Hret. rewrite Heq in Hret.
        destruct (declares config e); [|done].
        inversion Hret; subst. exists e, config. do 3 eexists.
        split; [done|]. split; [exact Hb|]. done.
    + unfold bind at 1 in Hret. rewrite (rolling_pair_ok config w Hmk) in Hret.
      destruct (NewLogEntry_tail config [rolling config InfoLevel]
                  [rolling config ErrorLevel] w) as (e & Hb & Heq).
      cbv beta iota in Hret. rewrite Heq in Hret.
      destruct (declares config e); [|done].
      inversion Hret; subst. exists e, config. do 3 eexists.
      split; [done|]. split; [exact Hb|]. done.
  - destruct (NewLogEntry_console_only config w Hfile) as (e & Hb & Heq).
    rewrite Heq in Hret. inversion Hret; subst.
    exists e, (with_ConsoleLoggingEnabled true config). do 3 eexists.
    split; [done|]. split; [exact Hb|]. done.
Qed.

Lemma load_entries_eq p e w w' :
  entries w' = entries w → load p w = (Ret e, w) → load p w' = (Ret e, w').
Proof.
  intros Heq. unfold load. rewrite Heq. destruct p as [|a]; [done|].
  destruct (entries w !! a); [|done]. by intros [= ->].
Qed.

Lemma load_default w d :
  defaultEntry w = (Ret d, w) → load (DefaultZapLogger w) w = (Ret d, w).
Proof. done. Qed.

Lemma extends_same_gate a pe ce args :
  same_gate a pe = true →
  extends (infoLogger pe) (infoLogger ce) args →
  extends (errorLogger pe) (errorLogger ce) args →
  infoSugared ce = Zap.Sugar (infoLogger ce) →
  errorSugared ce = Zap.Sugar (errorLogger ce) →
  same_gate a ce = true.
Proof.
  intros (H1 & H2 & _)%same_gate_spec (_ & _ & Hi & _) (_ & _ & He & _) Hsi Hse.
  unfold same_gate. rewrite Hsi, Hse. simpl. rewrite Hi, He, H1, H2.
  by rewrite !bool_decide_eq_true_2.
Qed.

(** C9. [SetLevel X] stores [X] in the cell [loglv], the cell the four
    loggers of the default entry read, and in no other cell; [GetLevel]
    reads that cell.  [Configure] leaves a state in which this holds
    again.  An entry returned by [NewLogEntry] reads a cell of its own,
    different from [loglv], which holds the [Level] of its config before
    and after [SetLevel X].  An entry returned by [WithFields] on the
    default logger reads the cell [loglv], which holds [X] after
    [SetLevel X]. *)
Theorem SetLevel_scope (config : Config) (w : World) (X : Z) (f : Fields) :
  wf w = true →
  (∃ a d w',
     loglv w = Some a
     ∧ defaultEntry w = (Ret d, w)
     ∧ same_gate a d = true
     ∧ SetLevel X w = (Ret tt, w')
     ∧ GetLevel w' = (Ret X, w')
     ∧ levels w' !! a = Some X
     ∧ (∀ b, b ≠ a → levels w' !! b = levels w !! b)
     ∧ entries w' = entries w)
  ∧ (∀ le w1,
       NewLogEntry config w = (Ret le, w1) →
       ∃ e a1 w2,
         load le w1 = (Ret e, w1)
         ∧ same_gate a1 e = true
         ∧ levels w1 !! a1 = Some (Level config)
         ∧ loglv w1 ≠ Some a1
         ∧ SetLevel X w1 = (Ret tt, w2)
         ∧ GetLevel w2 = (Ret X, w2)
         ∧ load le w2 = (Ret e, w2)
         ∧ levels w2 !! a1 = Some (Level config))
  ∧ (FileLoggingEnabled config = false →
     ∃ le w1, NewLogEntry config w = (Ret le, w1))
  ∧ (∃ le e a w1 w2,
       WithFields f w = (Ret le, w1)
       ∧ load le w1 = (Ret e, w1)
       ∧ loglv w1 = Some a
       ∧ same_gate a e = true
       ∧ SetLevel X w1 = (Ret tt, w2)
       ∧ load le w2 = (Ret e, w2)
       ∧ levels w2 !! a = Some X)
  ∧ wf (snd (Configure config w)) = true.
Proof.
  intros Hwf.
  destruct (default_spec w Hwf) as (a & d & Ha & Hd & Hg & Hlt).
  split; [|split; [|split; [|split]]].
  - destruct (SetLevel_then_GetLevel w X Hwf)
      as (a' & w' & Ha' & Hset & Hget & Hent & HX & Hother).
    assert (a' = a) as -> by congruence.
    exists a, d, w'. repeat split; done.
  - intros le w1 Hret.
    destruct (NewLogEntry_returns config w le w1 Hwf Hret)
      as (e & config' & io & eo & suffix & HLv & Hb & -> & ->).
    pose proof (wf_allocated config' io eo e w Hwf Hb) as Hwf1.
    rewrite <- (wf_add_written suffix) in Hwf1.
    destruct (SetLevel_then_GetLevel _ X Hwf1)
      as (a' & w2 & Ha' & Hset & Hget & Hent & HX & Hother).
    simpl in Ha'. assert (a' = a) as -> by congruence.
    pose proof (load_add_written _ _ suffix _ (load_allocated config' e w)) as Hl.
    exists e, (length (levels w)), w2.
    split; [done|]. split; [by eapply built_same_gate|].
    split; [simpl; rewrite <- HLv; by apply list_lookup_middle|].
    split; [simpl; rewrite Ha; intros [= ?]; lia|].
    split; [done|]. split; [done|].
    split; [by apply (load_entries_eq _ _ _ _ Hent)|].
    rewrite Hother by lia. simpl. rewrite <- HLv. by apply list_lookup_middle.
  - intros Hfile.
    destruct (NewLogEntry_console_only config w Hfile) as (e & _ & Heq).
    eauto.
  - destruct (LogEntry_WithFields_spec _ d f w (load_default _ _ Hd))
      as (args & ce & _ & _ & Hei & Hee & Hsi & Hse & Heq).
    set (w1 := with_child ce (length (map_to_list f)) w) in *.
    pose proof (wf_with_child _ d ce args (length (map_to_list f)) w Hwf
                  (load_default _ _ Hd) Hei Hee Hsi Hse) as Hwf1.
    fold w1 in Hwf1.
    destruct (SetLevel_then_GetLevel w1 X Hwf1)
      as (a' & w2 & Ha' & Hset & Hget & Hent & HX & Hother).
    simpl in Ha'. assert (a' = a) as -> by congruence.
    pose proof (load_with_child ce (length (map_to_list f)) w) as Hl. fold w1 in Hl.
    exists (Addr (length (entries w))), ce, a, w1, w2.
    split; [unfold WithFields, bind, get; by rewrite newLogEntry_eq|].
    split; [done|]. split; [done|].
    split; [by eapply extends_same_gate|].
    split; [done|]. split; [by apply (load_entries_eq _ _ _ _ Hent)|]. done.
  - destruct (Configure_spec config w Hwf) as [suffix Hspec].
    destruct Hspec as [-> | (e & c' & io & eo & Hb & ->)]; simpl.
    + by rewrite wf_add_written.
    + rewrite wf_add_written. eapply wf_installed; [|exact Hb].
      by apply entries_ok_of_wf.
Qed.

Lemma SetLevel_scope_witness :
  wf world0 = true
  ∧ (∃ le w1, NewLogEntry defaultConfig world0 = (Ret le, w1)
       ∧ ∃ e a1 w2,
           load le w1 = (Ret e, w1)
           ∧ same_gate a1 e = true
           ∧ levels w1 !! a1 = Some DebugLevel
           ∧ SetLevel ErrorLevel w1 = (Ret tt, w2)
           ∧ levels w2 !! a1 = Some DebugLevel)
  ∧ (∃ le e a w1 w2,
       WithFields fields_ab world0 = (Ret le, w1)
       ∧ load le w1 = (Ret e, w1)
       ∧ same_gate a e = true
       ∧ SetLevel ErrorLevel w1 = (Ret tt, w2)
       ∧ levels w2 !! a = Some ErrorLevel).
Proof.
  split; [reflexivity|].
  destruct (SetLevel_scope defaultConfig world0 ErrorLevel fields_ab eq_refl)
    as (_ & Hnew & Htot & Hchild & _).
  split.
  - destruct (Htot eq_refl) as (le & w1 & Hret).
    exists le, w1. split; [exact Hret|].
    destruct (Hnew le w1 Hret) as (e & a1 & w2 & H1 & H2 & H3 & _ & H5 & _ & _ & H8).
    exists e, a1, w2. repeat split; assumption.
  - destruct Hchild as (le & e & a & w1 & w2 & H1 & H2 & _ & H4 & H5 & _ & H7).
    exists le, e, a, w1, w2. repeat split; assumption.
Defined.

(** ** Further properties: conversion of field maps *)

Lemma map_is_fmap {A B} (g : A → B) (l : list A) : map g l = g <$> l.
Proof. induction l as [|x l IH]; [done|]. simpl. by rewrite IH. Qed.

Lemma as_fields_pairs l : map (λ x, (Key x, Val x)) (as_fields l) = l.
Proof.
  induction l as [|[k v] l IH]; [done|]. simpl. by rewrite IH.
Qed.

Lemma as_fields_keys l : map Key (as_fields l) = map fst l.
Proof.
  induction l as [|[k v] l IH]; [done|]. simpl. by rewrite IH.
Qed.

(** X1. [convertFields] returns one field per entry of the map, each key
    once; read back as a map, the fields are the map again, and a field
    is present exactly when the map binds its key to its value.  It
    consumes as many iteration choices as the map has entries and changes
    nothing else in the state. *)
Theorem convertFields_round_trip (f : Fields) (w : World) :
  ∃ fs,
    convertFields f w = (Ret fs, set_iter (drop (size f) (iter w)) w)
    ∧ length fs = size f
    ∧ NoDup (map Key fs)
    ∧ list_to_map (map (λ x, (Key x, Val x)) fs) = f
    ∧ (∀ k v, f !! k = Some v ↔ zap_Any k v ∈ fs).
Proof.
  set (kvs := pick (iter w) (map_to_list f) (length (map_to_list f))).
  assert (kvs ≡ₚ map_to_list f) as Hperm by apply pick_Permutation.
  exists (as_fields kvs).
  split; [|split; [|split; [|split]]].
  - rewrite convertFields_spec. fold kvs. by rewrite length_map_to_list.
  - unfold as_fields. rewrite length_map, Hperm. apply length_map_to_list.
  - rewrite as_fields_keys, map_is_fmap, Hperm. apply NoDup_fst_map_to_list.
  - rewrite as_fields_pairs.
    rewrite (list_to_map_proper kvs (map_to_list f)); [|  | done].
    + apply list_to_map_to_list.
    + rewrite Hperm. apply NoDup_fst_map_to_list.
  - intros k v. rewrite <- elem_of_map_to_list, <- Hperm.
    unfold as_fields. rewrite map_is_fmap. split.
    + intros Hin. by apply (list_elem_of_fmap_2 (λ kv, zap_Any kv.1 kv.2) _ (k, v)).
    + intros ([k' v'] & Heq & Hin)%list_elem_of_fmap_1.
      simpl in Heq. by inversion Heq.
Qed.

Lemma convertFields_empty w : convertFields ∅ w = (Ret [], w).
Proof.
  rewrite convertFields_spec, map_to_list_empty. by destruct w.
Qed.

(** ** Further properties: the [With] style *)

(** X2. For every map of fields the package-level [DebugWith],
    [InfoWith], [WarnWith] and [ErrorWith] do what the methods of the same
    name do on the default logger, in every state; with an empty map they
    do what the plain [Debug], [Info], [Warn] and [Error] do. *)
Theorem With_style_agrees (w : World) (msg : string) (f : Fields) :
  (LogEntry_DebugWith (DefaultZapLogger w) msg f w = DebugWith msg f w
   ∧ LogEntry_InfoWith (DefaultZapLogger w) msg f w = InfoWith msg f w
   ∧ LogEntry_WarnWith (DefaultZapLogger w) msg f w = WarnWith msg f w
   ∧ LogEntry_ErrorWith (DefaultZapLogger w) msg f w = ErrorWith msg f w)
  ∧ (f = ∅ →
     DebugWith msg f w = Debug msg w
     ∧ InfoWith msg f w = Info msg w
     ∧ WarnWith msg f w = Warn msg w
     ∧ ErrorWith msg f w = Error msg w).
Proof.
  assert (∀ (k : LogEntry → list Field → M unit),
            f = ∅ →
            (e <- load (DefaultZapLogger w) ;; fs <- convertFields f ;; k e fs) w
            = (d <- defaultEntry ;; k d []) w) as Hempty.
  { intros k ->. unfold defaultEntry, bind, get.
    destruct (load (DefaultZapLogger w) w) as [[e| | |] w'] eqn:Hl; try done.
    assert (w' = w) as ->
      by (unfold load in Hl; repeat case_match; congruence).
    by rewrite convertFields_empty. }
  split.
  - unfold DebugWith, InfoWith, WarnWith, ErrorWith.
    case_bool_decide as Hsz.
    + done.
    + assert (f = ∅) as Hf by (apply map_size_empty_iff; lia).
      unfold LogEntry_DebugWith, LogEntry_InfoWith, LogEntry_WarnWith,
        LogEntry_ErrorWith.
      by rewrite !Hempty.
  - intros ->. unfold DebugWith, InfoWith, WarnWith, ErrorWith.
    rewrite map_size_empty. by rewrite bool_decide_eq_false_2 by lia.
Qed.

(** ** Further properties: child loggers *)

(** X3. [WithFields] with an empty map still allocates a new entry, but
    its two loggers are the parent's: the same bound fields, writers and
    level cell, so a call on the child does what the same call on the
    parent does.  No iteration choice is consumed. *)
Theorem WithFields_empty_map (w : World) (parent : Ptr) (pe : LogEntry)
    (msg : string) (fields : list Field) :
  load parent w = (Ret pe, w) →
  ∃ ce,
    LogEntry_WithFields parent ∅ w
    = (Ret (Addr (length (entries w))), set_entries (entries w ++ [ce]) w)
    ∧ infoLogger ce = infoLogger pe
    ∧ errorLogger ce = errorLogger pe
    ∧ LogEntry_Infov (Addr (length (entries w))) msg fields
        (set_entries (entries w ++ [ce]) w)
      = LogEntry_Infov parent msg fields (set_entries (entries w ++ [ce]) w)
    ∧ LogEntry_Errorv (Addr (length (entries w))) msg fields
        (set_entries (entries w ++ [ce]) w)
      = LogEntry_Errorv parent msg fields (set_entries (entries w ++ [ce]) w).
Proof.
  intros Hl.
  destruct (load_valid _ _ _ Hl) as (a & -> & Ha).
  exists (mkLogEntry (Zap.Sugar (infoLogger pe)) (Zap.Sugar (errorLogger pe))
            (infoLogger pe) (errorLogger pe)).
  split; [|split; [done|split; [done|]]].
  - unfold LogEntry_WithFields. unfold bind at 1.
    rewrite convertFields_empty. unfold bind, alloc. by rewrite Hl.
  - unfold LogEntry_Infov, LogEntry_Errorv, bind, load. simpl.
    rewrite list_lookup_middle by done.
    by rewrite (lookup_app_l_Some _ _ _ _ Ha).
Qed.

Lemma WithFields_empty_map_witness :
  load (Addr 0) world0 = (Ret entry0, world0)
  ∧ ∃ ce,
      LogEntry_WithFields (Addr 0) ∅ world0
      = (Ret (Addr 1), set_entries (entries world0 ++ [ce]) world0)
      ∧ infoLogger ce = infoLogger entry0
      ∧ errorLogger ce = errorLogger entry0.
Proof.
  split; [reflexivity|].
  destruct (WithFields_empty_map world0 (Addr 0) entry0 "m" [] eq_refl)
    as (ce & Heq & Hi & He & _).
  exists ce. split; [exact Heq|]. split; [exact Hi | exact He].
Defined.

(** ** Further properties: loggers in contexts *)

(** X4. A nil logger attached to a context is retrieved as nil, not
    replaced by the default logger, and a call on what was retrieved
    panics with a nil dereference.  Attaching to a nil context panics, and
    so does retrieving from one; neither changes the state. *)
Theorem context_nil_cases (w : World) (bs : list (Ctx.CtxKey * Ctx.CtxVal))
    (le : Ptr) (msg : string) (fields : list Field) :
  (∃ c',
     ContextWithCustomizedLogger (Some bs) Nil w = (Ret c', w)
     ∧ FromContext c' w = (Ret Nil, w)
     ∧ (p <- FromContext c' ;; LogEntry_Infov p msg fields) w
       = (Panic NilDereference, w))
  ∧ ContextWithCustomizedLogger None le w = (Panic NilParentContext, w)
  ∧ ContextWithLogger None w = (Panic NilParentContext, w)
  ∧ FromContext None w = (Panic NilDereference, w).
Proof.
  split; [|done].
  eexists. split; [reflexivity|]. split; reflexivity.
Qed.

(** X5. Of two loggers attached one after the other, retrieval yields
    the one attached last; a value attached afterwards under any other key
    does not hide the logger. *)
Theorem context_innermost_logger (w : World)
    (bs : list (Ctx.CtxKey * Ctx.CtxVal)) (le1 le2 : Ptr)
    (k : Ctx.CtxKey) (v : Ctx.CtxVal) :
  k ≠ loggerKey →
  (c1 <- LogEntry_ContextWithLogger le1 (Some bs) ;;
   c2 <- LogEntry_ContextWithLogger le2 c1 ;;
   FromContext c2) w = (Ret le2, w)
  ∧ (c1 <- LogEntry_ContextWithLogger le1 (Some bs) ;;
     c2 <- Ctx.WithValue c1 k v ;;
     FromContext c2) w = (Ret le1, w).
Proof.
  intros Hk. split; [reflexivity|].
  unfold bind, LogEntry_ContextWithLogger, Ctx.WithValue, ret, FromContext,
    Ctx.Value. simpl.
  rewrite decide_False by done. reflexivity.
Qed.

Lemma context_innermost_logger_witness :
  Ctx.ForeignKey "user" ≠ loggerKey
  ∧ (c1 <- LogEntry_ContextWithLogger (Addr 3) Ctx.Background ;;
     c2 <- Ctx.WithValue c1 (Ctx.ForeignKey "user")
             (Ctx.OtherVal (VString "u1")) ;;
     FromContext c2) world0 = (Ret (Addr 3), world0).
Proof.
  assert (Ctx.ForeignKey "user" ≠ loggerKey) as Hk by discriminate.
  split; [exact Hk|].
  apply (context_innermost_logger world0 [] (Addr 3) (Addr 4)
           (Ctx.ForeignKey "user") (Ctx.OtherVal (VString "u1")) Hk).
Defined.

(** ** Further properties: file names *)

Lemma append_inj_l (s a b : string) : s +:+ a = s +:+ b → a = b.
Proof.
  induction s as [|c s IH]; [done|]. simpl. intros [= H]. by apply IH.
Qed.

(** X6. For every file name the info name and the error name differ;
    they are one stem followed by "info.log" and by "error.log", and the
    stem is empty exactly for the empty file name.  Every level other than
    Error gets the info name. *)
Theorem log_file_names_distinct (F : string) (lvl : Z) :
  getNameByLogLevel F InfoLevel ≠ getNameByLogLevel F ErrorLevel
  ∧ (∃ stem,
       getNameByLogLevel F InfoLevel = stem +:+ "info.log"
       ∧ getNameByLogLevel F ErrorLevel = stem +:+ "error.log"
       ∧ (stem = "" ↔ F = ""))
  ∧ (lvl ≠ ErrorLevel →
     getNameByLogLevel F lvl = getNameByLogLevel F InfoLevel).
Proof.
  split; [|split].
  - unfold getNameByLogLevel.
    rewrite (bool_decide_eq_false_2 (InfoLevel = ErrorLevel)) by done.
    rewrite (bool_decide_eq_true_2 (ErrorLevel = ErrorLevel)) by done.
    intros H%append_inj_l. discriminate.
  - exists (if bool_decide (F ≠ "")
            then strings_Replace F ".log" "" +:+ "_" else "").
    split; [done|]. split; [done|].
    case_bool_decide as HF.
    + split; [|done]. intros H.
      destruct (strings_Replace F ".log" ""); discriminate.
    + split; [|done]. intros _. by destruct (decide (F = "")).
  - intros Hl. unfold getNameByLogLevel.
    rewrite (bool_decide_eq_false_2 (lvl = ErrorLevel)) by done.
    by rewrite (bool_decide_eq_false_2 (InfoLevel = ErrorLevel)).
Qed.

Lemma prefix_dotlog_short c r :
  (String.length r < 3)%nat →
  String.prefix ".log" (String c r) = false
  ∧ String.prefix ".log" (String c (r +:+ ".log")) = false.
Proof.
  intros Hlen.
  destruct r as [|c1 [|c2 [|c3 r]]]; simpl in Hlen; try lia;
    (split; cbv beta iota fix delta [String.prefix String.append]; try done;
     repeat (destruct (ascii_dec _ _) as [?|?]; subst; try done)).
Qed.

Lemma prefix_dotlog_long c r :
  (3 ≤ String.length r)%nat →
  String.prefix ".log" (String c (r +:+ ".log"))
  = String.prefix ".log" (String c r).
Proof.
  intros Hlen.
  destruct r as [|c1 [|c2 [|c3 r]]]; simpl in Hlen; try lia.
  cbv beta iota fix delta [String.prefix String.append].
  repeat (destruct (ascii_dec _ _) as [?|?]; try done). by destruct r.
Qed.

Lemma Replace_dotlog_app s k :
  (k ≤ String.length s)%nat →
  Replace_from ".log" "" k (s +:+ ".log") = Replace_from ".log" "" k s.
Proof.
  revert k. induction s as [|c r IH]; intros k Hk.
  - simpl in Hk. by assert (k = 0)%nat as -> by lia.
  - destruct k as [|k].
    + destruct (decide (String.length r < 3)%nat) as [Hshort|Hlong].
      * destruct (prefix_dotlog_short c r Hshort) as [H1 H2].
        change (String c r +:+ ".log") with (String c (r +:+ ".log")).
        cbn [Replace_from]. rewrite H1, H2. by rewrite IH by lia.
      * change (String c r +:+ ".log") with (String c (r +:+ ".log")).
        cbn [Replace_from]. rewrite prefix_dotlog_long by lia.
        destruct (String.prefix ".log" (String c r)).
        -- change (String.length ".log" - 1)%nat with 3%nat.
           by rewrite IH by lia.
        -- by rewrite IH by lia.
    + change (String c r +:+ ".log") with (String c (r +:+ ".log")).
      cbn [Replace_from]. apply IH. simpl in Hk. lia.
Qed.

(** X7. A non-empty file name and the same name followed by ".log" get
    the same names at every level: the extension may be written or left
    out.  The empty name is the exception of the rule: ".log" alone gives
    "_info.log", the empty name "info.log". *)
Theorem log_file_extension_optional (F : string) (lvl : Z) :
  F ≠ "" →
  getNameByLogLevel (F +:+ ".log") lvl = getNameByLogLevel F lvl
  ∧ getNameByLogLevel ("" +:+ ".log") InfoLevel = "_info.log"
  ∧ getNameByLogLevel "" InfoLevel = "info.log".
Proof.
  intros HF. split; [|done].
  unfold getNameByLogLevel.
  rewrite (bool_decide_eq_true_2 (F ≠ "")) by done.
  rewrite (bool_decide_eq_true_2 (F +:+ ".log" ≠ "")).
  - unfold strings_Replace. by rewrite Replace_dotlog_app by lia.
  - destruct F; [done|discriminate].
Qed.

Lemma log_file_extension_optional_witness :
  "svc" ≠ ""
  ∧ getNameByLogLevel ("svc" +:+ ".log") ErrorLevel
    = getNameByLogLevel "svc" ErrorLevel.
Proof.
  assert ("svc" ≠ "") as H by discriminate.
  split; [exact H|].
  apply (log_file_extension_optional "svc" ErrorLevel H).
Defined.

(** ** Further properties: [NewLogEntry] *)

Lemma NewLogEntry_files config w :
  FileLoggingEnabled config = true →
  MkdirAll_err w (Directory config) = None →
  ∃ e,
    built (Single (rolling config InfoLevel)) (Single (rolling config ErrorLevel))
          (length (levels w)) e
    ∧ NewLogEntry config w
      = (Ret (Addr (length (entries w))),
         add_written (declared config e) (allocated config e w)).
Proof.
  intros Hfile Hok.
  destruct (NewLogEntry_tail config [rolling config InfoLevel]
              [rolling config ErrorLevel] w) as (e & Hb & Heq).
  exists e. split; [exact Hb|].
  destruct (built_out _ _ _ _ Hb) as (Hoi & Hoe & _).
  rewrite declares_healthy in Heq; [|by rewrite Hoi|by rewrite Hoe].
  rewrite <- Heq. unfold NewLogEntry. rewrite Hfile.
  unfold bind at 1. by rewrite (rolling_pair_ok config w Hok).
Qed.

Lemma NewLogEntry_mkdir_fails config w err d L :
  FileLoggingEnabled config = true →
  MkdirAll_err w (Directory config) = Some err →
  defaultEntry w = (Ret d, w) →
  levels w !! level (core (errorLogger d)) = Some L →
  if bool_decide (L ≤ ErrorLevel) && negb (healthy (out (core (errorLogger d))))
  then NewLogEntry config w
       = (Panic NilDereference,
          add_written (mkdir_report d err (Directory config)) w)
  else
    ∃ e,
      built (NewMultiWriteSyncer [WNil]) (NewMultiWriteSyncer [WNil])
            (length (levels w)) e
      ∧ NewLogEntry config w
        = (if declares config e then Ret (Addr (length (entries w)))
           else Panic NilDereference,
           add_written
             ((if bool_decide (L ≤ ErrorLevel)
               then mkdir_report d err (Directory config)
                    ++ mkdir_report d err (Directory config)
               else []) ++ declared config e)
             (allocated config e w)).
Proof.
  intros Hfile Herr Hd HL.
  pose proof (rolling_pair_fail config w err d L Herr Hd HL) as Hpair.
  destruct (bool_decide (L ≤ ErrorLevel)) eqn:Hen;
    [destruct (healthy (out (core (errorLogger d)))) eqn:Hh|]; simpl.
  - set (w0 := add_written (mkdir_report d err (Directory config)
                            ++ mkdir_report d err (Directory config)) w) in *.
    destruct (NewLogEntry_tail config [WNil] [WNil] w0) as (e & Hb & Heq).
    exists e. split; [exact Hb|].
    unfold w0 in Heq. rewrite add_written_allocated in Heq.
    change (length (entries (add_written _ w))) with (length (entries w)) in Heq.
    rewrite <- Heq.
    unfold NewLogEntry. rewrite Hfile.
    unfold bind at 1. rewrite Hpair. by fold w0.
  - unfold NewLogEntry. rewrite Hfile.
    unfold bind at 1. by rewrite Hpair.
  - destruct (NewLogEntry_tail config [WNil] [WNil] w) as (e & Hb & Heq).
    exists e. split; [exact Hb|].
    rewrite <- Heq.
    unfold NewLogEntry. rewrite Hfile.
    unfold bind at 1. by rewrite Hpair.
Qed.

Lemma NewLogEntry_spec config w :
  wf w = true →
  ∃ suffix,
    NewLogEntry config w = (Panic NilDereference, add_written suffix w)
    ∨ ∃ e config' io eo,
        built io eo (length (levels w)) e
        ∧ NewLogEntry config w
          = (if declares config' e then Ret (Addr (length (entries w)))
             else Panic NilDereference,
             add_written suffix (allocated config' e w)).
Proof.
  intros Hwf.
  destruct (FileLoggingEnabled config) eqn:Hfile.
  - destruct (MkdirAll_err w (Directory config)) as [err|] eqn:Hmk.
    + destruct (default_gate w Hwf) as (d & L & Hd & HL).
      pose proof (NewLogEntry_mkdir_fails config w err d L Hfile Hmk Hd HL) as H.
      destruct (_ && _).
      * eexists. left. exact H.
      * destruct H as (e & Hb & Heq). eexists. right.
        exists e, config. do 2 eexists. split; [exact Hb | exact Heq].
    + destruct (NewLogEntry_files config w Hfile Hmk) as (e & Hb & Heq).
      eexists. right. exists e, config. do 2 eexists.
      split; [exact Hb|]. rewrite Heq.
      destruct (built_out _ _ _ _ Hb) as (Hoi & Hoe & _).
      by rewrite declares_healthy; [| rewrite Hoi | rewrite Hoe].
  - destruct (NewLogEntry_console_only config w Hfile) as (e & Hb & Heq).
    eexists. right. exists e, (with_ConsoleLoggingEnabled true config).
    do 2 eexists. split; [exact Hb|]. rewrite Heq.
    destruct (built_out _ _ _ _ Hb) as (Hoi & Hoe & _).
    by rewrite declares_healthy; [| rewrite Hoi | rewrite Hoe].
Qed.

Lemma GetLevel_frame w w' :
  loglv w' = loglv w →
  (∀ a L, levels w !! a = Some L → levels w' !! a = Some L) →
  ∀ L, GetLevel w = (Ret L, w) → GetLevel w' = (Ret L, w').
Proof.
  intros Hlv Hcells L. unfold GetLevel, bind, get, Zap.AtomicLevel_Level.
  rewrite Hlv. destruct (loglv w) as [a|]; [|done].
  destruct (levels w !! a) as [L0|] eqn:HL0; [|done].
  intros [= ->]. by rewrite (Hcells _ _ HL0).
Qed.

(** X8. [NewLogEntry] does not override the default logger: whatever
    its outcome, [DefaultZapLogger] and [loglv] are as before, every entry
    and every level cell allocated before is unchanged, [GetLevel] reads
    what it read before, and the invariant of the package state still
    holds. *)
Theorem NewLogEntry_keeps_default (config : Config) (w : World) :
  wf w = true →
  DefaultZapLogger (snd (NewLogEntry config w)) = DefaultZapLogger w
  ∧ loglv (snd (NewLogEntry config w)) = loglv w
  ∧ (∀ a e, entries w !! a = Some e →
            entries (snd (NewLogEntry config w)) !! a = Some e)
  ∧ (∀ a L, levels w !! a = Some L →
            levels (snd (NewLogEntry config w)) !! a = Some L)
  ∧ (∃ L, GetLevel w = (Ret L, w)
          ∧ GetLevel (snd (NewLogEntry config w))
            = (Ret L, snd (NewLogEntry config w)))
  ∧ wf (snd (NewLogEntry config w)) = true.
Proof.
  intros Hwf.
  assert (DefaultZapLogger (snd (NewLogEntry config w)) = DefaultZapLogger w
          ∧ loglv (snd (NewLogEntry config w)) = loglv w
          ∧ (∀ a e, entries w !! a = Some e →
                    entries (snd (NewLogEntry config w)) !! a = Some e)
          ∧ (∀ a L, levels w !! a = Some L →
                    levels (snd (NewLogEntry config w)) !! a = Some L)
          ∧ wf (snd (NewLogEntry config w)) = true)
    as (H1 & H2 & H3 & H4 & H5).
  { destruct (NewLogEntry_spec config w Hwf) as [suffix Hspec].
    destruct Hspec as [-> | (e & c' & io & eo & Hb & ->)]; simpl.
    - repeat split; try done.
    - repeat split; try done.
      + intros a e0 He0. by apply lookup_app_l_Some.
      + intros a L HL. by apply lookup_app_l_Some.
      + change (wf (allocated c' e w) = true). by eapply wf_allocated. }
  repeat split; try done.
  destruct (SetLevel_spec w 0 Hwf) as (a & Ha & Hlt & _).
  destruct (lookup_lt_is_Some_2 (levels w) a Hlt) as [L HL].
  assert (GetLevel w = (Ret L, w)) as Hget.
  { unfold GetLevel, bind, get, Zap.AtomicLevel_Level. by rewrite Ha, HL. }
  exists L. split; [done|]. by apply (GetLevel_frame w).
Qed.

Lemma NewLogEntry_keeps_default_witness :
  wf world_locked = true
  ∧ DefaultZapLogger (snd (NewLogEntry (config_locked DebugLevel) world_locked))
    = DefaultZapLogger world_locked
  ∧ loglv (snd (NewLogEntry (config_locked DebugLevel) world_locked))
    = loglv world_locked.
Proof.
  split; [reflexivity|].
  destruct (NewLogEntry_keeps_default (config_locked DebugLevel) world_locked
              eq_refl) as (H1 & H2 & _).
  split; [exact H1 | exact H2].
Defined.

(** X9. With file logging on and the directory in place, [NewLogEntry]
    returns an entry whose info channel has one writer, the rolling info
    file, and whose error channel has one writer, the rolling error file:
    unlike [Configure] it attaches no console stream, whatever
    [ConsoleLoggingEnabled] and the console streams of the config are. *)
Theorem NewLogEntry_files_only (config : Config) (w : World) :
  FileLoggingEnabled config = true →
  MkdirAll_err w (Directory config) = None →
  ∃ e,
    NewLogEntry config w
    = (Ret (Addr (length (entries w))),
       add_written (declared config e) (allocated config e w))
    ∧ writers (out (core (infoLogger e))) = [rolling config InfoLevel]
    ∧ writers (out (core (errorLogger e))) = [rolling config ErrorLevel]
    ∧ writers (out (core (base (infoSugared e)))) = [rolling config InfoLevel]
    ∧ writers (out (core (base (errorSugared e)))) = [rolling config ErrorLevel]
    ∧ Forall (λ x, is_console (fst x) = false) (declared config e).
Proof.
  intros Hfile Hok.
  destruct (NewLogEntry_files config w Hfile Hok) as (e & Hb & Heq).
  exists e. split; [exact Heq|].
  pose proof Hb as (en & Hi & He & Hsi & Hse & _).
  rewrite Hsi, Hse. simpl. rewrite Hi, He. simpl.
  repeat split; try done.
  unfold declared. rewrite Hi, He. simpl.
  apply Forall_app. split.
  - destruct (bool_decide _); repeat constructor.
  - destruct (_ && _); repeat constructor.
Qed.

Lemma NewLogEntry_files_only_witness :
  FileLoggingEnabled (config_locked InfoLevel) = true
  ∧ ConsoleLoggingEnabled (config_locked InfoLevel) = true
  ∧ MkdirAll_err world0 (Directory (config_locked InfoLevel)) = None
  ∧ ∃ e,
      NewLogEntry (config_locked InfoLevel) world0
      = (Ret (Addr 1),
         add_written (declared (config_locked InfoLevel) e)
           (allocated (config_locked InfoLevel) e world0))
      ∧ writers (out (core (infoLogger e)))
        = [rolling (config_locked InfoLevel) InfoLevel].
Proof.
  split; [reflexivity|]. split; [reflexivity|]. split; [reflexivity|].
  destruct (NewLogEntry_files_only (config_locked InfoLevel) world0
              eq_refl eq_refl) as (e & Heq & Hi & _).
  exists e. split; [exact Heq | exact Hi].
Defined.

(** ** Further properties: [Configure] and the level *)

Lemma Configure_ok config w :
  FileLoggingEnabled config = false ∨ MkdirAll_err w (Directory config) = None →
  ∃ e config' io eo,
    Level config' = Level config
    ∧ built io eo (length (levels w)) e
    ∧ healthy io = true ∧ healthy eo = true
    ∧ Configure config w
      = (Ret None, add_written (declared config' e) (installed config' e w)).
Proof.
  intros Hcase.
  destruct (FileLoggingEnabled config) eqn:Hfile.
  - destruct Hcase as [?|Hok]; [done|].
    destruct (Configure_files config w Hfile Hok) as (e & Hb & Heq).
    exists e, config. do 2 eexists. split; [done|]. split; [exact Hb|].
    split; [|split; [|exact Heq]].
    + unfold info_console, rolling.
      by destruct (ConsoleLoggingEnabled config), (ConsoleInfoStream config).
    + unfold error_console, rolling.
      by destruct (ConsoleLoggingEnabled config), (ConsoleErrorStream config).
  - destruct (Configure_console_only config w Hfile) as (e & Hb & Heq).
    exists e, (with_ConsoleLoggingEnabled true config). do 2 eexists.
    split; [done|]. split; [exact Hb|]. split; [|split; [|exact Heq]].
    + unfold info_console. by destruct (ConsoleInfoStream config).
    + unfold error_console. by destruct (ConsoleErrorStream config).
Qed.

Lemma GetLevel_installed config e suffix w :
  GetLevel (add_written suffix (installed config e w))
  = (Ret (Level config), add_written suffix (installed config e w)).
Proof.
  unfold GetLevel, bind, get, Zap.AtomicLevel_Level. simpl.
  by rewrite list_lookup_middle.
Qed.

(** X10. [Configure] sets the level anew: when file logging is off or
    the directory is in place, a [SetLevel X] made before [Configure] is
    forgotten, and [GetLevel] after [Configure] reads the [Level] of the
    config. *)
Theorem Configure_resets_level (config : Config) (w : World) (X : Z) :
  wf w = true →
  FileLoggingEnabled config = false ∨ MkdirAll_err w (Directory config) = None →
  ∃ w1 w2,
    SetLevel X w = (Ret tt, w1)
    ∧ GetLevel w1 = (Ret X, w1)
    ∧ Configure config w1 = (Ret None, w2)
    ∧ GetLevel w2 = (Ret (Level config), w2).
Proof.
  intros Hwf Hcase.
  destruct (SetLevel_then_GetLevel w X Hwf)
    as (a & w1 & Ha & Hset & Hget & _).
  assert (MkdirAll_err w1 = MkdirAll_err w) as Hfs.
  { destruct (SetLevel_spec w X Hwf) as (a' & _ & _ & Hset' & _).
    rewrite Hset' in Hset. by inversion Hset. }
  destruct (Configure_ok config w1) as (e & c' & io & eo & HL & _ & _ & _ & Heq).
  { by rewrite Hfs. }
  exists w1. eexists. split; [done|]. split; [done|]. split; [exact Heq|].
  rewrite <- HL. apply GetLevel_installed.
Qed.

Lemma Configure_resets_level_witness :
  wf world0 = true
  ∧ (FileLoggingEnabled (DefaultRotateLoggerConfig "svc") = false
     ∨ MkdirAll_err world0 (Directory (DefaultRotateLoggerConfig "svc")) = None)
  ∧ ∃ w1 w2,
      SetLevel ErrorLevel world0 = (Ret tt, w1)
      ∧ GetLevel w1 = (Ret ErrorLevel, w1)
      ∧ Configure (DefaultRotateLoggerConfig "svc") w1 = (Ret None, w2)
      ∧ GetLevel w2 = (Ret DebugLevel, w2).
Proof.
  split; [reflexivity|]. split; [right; reflexivity|].
  apply (Configure_resets_level (DefaultRotateLoggerConfig "svc") world0
           ErrorLevel eq_refl (or_intror eq_refl)).
Defined.

(** X11. After [Configure] has installed a new default logger,
    [SetLevel] no longer reaches the loggers that existed before: every
    entry allocated before the call, the previous default logger and its
    children included, is unchanged and the cells its two loggers read
    hold what they held before [Configure], while [GetLevel] reads the new
    value. *)
Theorem SetLevel_misses_earlier_loggers (config : Config) (w : World)
    (p : Ptr) (pe : LogEntry) (X : Z) :
  wf w = true →
  load p w = (Ret pe, w) →
  FileLoggingEnabled config = false ∨ MkdirAll_err w (Directory config) = None →
  ∃ w1 w2,
    Configure config w = (Ret None, w1)
    ∧ SetLevel X w1 = (Ret tt, w2)
    ∧ GetLevel w2 = (Ret X, w2)
    ∧ load p w2 = (Ret pe, w2)
    ∧ levels w2 !! level (core (infoLogger pe))
      = levels w !! level (core (infoLogger pe))
    ∧ levels w2 !! level (core (errorLogger pe))
      = levels w !! level (core (errorLogger pe)).
Proof.
  intros Hwf Hl Hcase.
  destruct (Configure_ok config w Hcase)
    as (e & c' & io & eo & HL & Hb & _ & _ & Heq).
  set (w1 := add_written (declared c' e) (installed c' e w)) in *.
  assert (wf w1 = true) as Hwf1.
  { unfold w1. rewrite wf_add_written. eapply wf_installed; [|exact Hb].
    by apply entries_ok_of_wf. }
  destruct (SetLevel_then_GetLevel w1 X Hwf1)
    as (a & w2 & Ha & Hset & Hget & Hent & HX & Hother).
  simpl in Ha. injection Ha as <-.
  destruct (load_valid _ _ _ Hl) as (q & -> & Hq).
  pose proof (entries_ok_lookup _ _ _ _ (entries_ok_of_wf _ Hwf) Hq)
    as (Hi & He & _)%entry_ok_spec.
  exists w1, w2. split; [done|]. split; [done|]. split; [done|].
  split.
  { apply (load_entries_eq _ _ w1); [done|].
    unfold load. simpl. by rewrite (lookup_app_l_Some _ _ _ _ Hq). }
  split.
  - rewrite Hother by lia. simpl. by rewrite lookup_app_l.
  - rewrite Hother by lia. simpl. by rewrite lookup_app_l.
Qed.

Lemma SetLevel_misses_earlier_loggers_witness :
  wf world0 = true
  ∧ load (Addr 0) world0 = (Ret entry0, world0)
  ∧ ∃ w1 w2,
      Configure defaultConfig world0 = (Ret None, w1)
      ∧ SetLevel FatalLevel w1 = (Ret tt, w2)
      ∧ load (Addr 0) w2 = (Ret entry0, w2)
      ∧ levels w2 !! level (core (errorLogger entry0))
        = levels world0 !! level (core (errorLogger entry0)).
Proof.
  split; [reflexivity|]. split; [reflexivity|].
  destruct (SetLevel_misses_earlier_loggers defaultConfig world0 (Addr 0)
              entry0 FatalLevel eq_refl eq_refl (or_introl eq_refl))
    as (w1 & w2 & H1 & H2 & _ & H4 & _ & H6).
  exists w1, w2. repeat split; assumption.
Defined.

(** ** Further properties: terminal levels *)

(** X12. On the default logger [Panicv] and [Fatalv] never return.
    With no nil writer in the error channel, [Panicv] panics with the
    message and [Fatalv] exits with code 1, whether the level is enabled or
    not; the line is written first when the level is enabled, and nothing
    is written when it is not. *)
Theorem Panicv_Fatalv_do_not_return (w : World) (msg : string)
    (fields : list Field) :
  wf w = true →
  ∃ d L,
    defaultEntry w = (Ret d, w)
    ∧ levels w !! level (core (errorLogger d)) = Some L
    ∧ (∀ r, fst (Panicv msg fields w) ≠ Ret r)
    ∧ (∀ r, fst (Fatalv msg fields w) ≠ Ret r)
    ∧ (healthy (out (core (errorLogger d))) = true →
       Panicv msg fields w
       = (Panic (PanicMsg msg),
          add_written
            (if bool_decide (L ≤ PanicLevel)
             then emitted (out (core (errorLogger d)))
                    (Zap.lineOf (errorLogger d) PanicLevel msg fields)
             else []) w)
       ∧ Fatalv msg fields w
         = (Exit 1,
            add_written
              (if bool_decide (L ≤ FatalLevel)
               then emitted (out (core (errorLogger d)))
                      (Zap.lineOf (errorLogger d) FatalLevel msg fields)
               else []) w)).
Proof.
  intros Hwf.
  destruct (default_gate w Hwf) as (d & L & Hd & HL).
  exists d, L. split; [done|]. split; [done|].
  assert (Panicv msg fields w
          = Zap.Logger_log (errorLogger d) PanicLevel msg fields w) as HP.
  { unfold Panicv, bind. by rewrite Hd. }
  assert (Fatalv msg fields w
          = Zap.Logger_log (errorLogger d) FatalLevel msg fields w) as HF.
  { unfold Fatalv, bind. by rewrite Hd. }
  rewrite HP, HF, !(Logger_log_spec _ _ _ _ _ _ HL).
  split; [|split].
  - intros r. destruct (bool_decide (L ≤ PanicLevel)); simpl; [|done].
    by destruct (healthy _).
  - intros r. destruct (bool_decide (L ≤ FatalLevel)); simpl; [|done].
    by destruct (healthy _).
  - intros ->. split.
    + destruct (bool_decide (L ≤ PanicLevel)); simpl; [done|].
      by rewrite add_written_nil.
    + destruct (bool_decide (L ≤ FatalLevel)); simpl; [done|].
      by rewrite add_written_nil.
Qed.

Lemma Panicv_Fatalv_do_not_return_witness :
  wf world0 = true
  ∧ ∃ d L,
      defaultEntry world0 = (Ret d, world0)
      ∧ levels world0 !! level (core (errorLogger d)) = Some L
      ∧ (∀ r, fst (Panicv "boom" [] world0) ≠ Ret r).
Proof.
  split; [reflexivity|].
  destruct (Panicv_Fatalv_do_not_return world0 "boom" [] eq_refl)
    as (d & L & Hd & HL & HP & _).
  exists d, L. split; [exact Hd|]. split; [exact HL | exact HP].
Defined.

(** X13. The logger [Configure] installs is not a development logger:
    when file logging is off or the directory is in place, [DPanicv] on
    the new default logger returns normally; it writes its line at DPanic
    severity to the error channel when the configured level enables
    DPanic, and nothing otherwise. *)
Theorem DPanicv_returns (config : Config) (w : World) (msg : string)
    (fields : list Field) :
  FileLoggingEnabled config = false ∨ MkdirAll_err w (Directory config) = None →
  ∃ e w1,
    Configure config w = (Ret None, w1)
    ∧ defaultEntry w1 = (Ret e, w1)
    ∧ development (errorLogger e) = false
    ∧ DPanicv msg fields w1
      = (Ret tt,
         add_written
           (if bool_decide (Level config ≤ DPanicLevel)
            then emitted (out (core (errorLogger e)))
                   (Zap.lineOf (errorLogger e) DPanicLevel msg fields)
            else []) w1).
Proof.
  intros Hcase.
  destruct (Configure_ok config w Hcase)
    as (e & c' & io & eo & HLv & Hb & _ & Hh & Heq).
  set (w1 := add_written (declared c' e) (installed c' e w)) in *.
  pose proof (default_add_written (declared c' e) _ _
                (defaultEntry_installed c' e w)) as Hd. fold w1 in Hd.
  pose proof Hb as (en & _ & He & _ & _ & _ & Hdev).
  exists e, w1. split; [done|]. split; [done|]. split; [done|].
  unfold DPanicv, bind. rewrite Hd. unfold Zap.Logger_DPanic.
  rewrite (Logger_log_spec _ _ _ _ _ (Level config)).
  - rewrite He. simpl. rewrite Hh. unfold terminal. rewrite Hdev. simpl.
    destruct (bool_decide (Level config ≤ DPanicLevel)); [done|].
    by rewrite add_written_nil.
  - rewrite He. simpl. rewrite <- HLv. by apply list_lookup_middle.
Qed.

Lemma DPanicv_returns_witness :
  (FileLoggingEnabled defaultConfig = false
   ∨ MkdirAll_err world0 (Directory defaultConfig) = None)
  ∧ ∃ e w1,
      Configure defaultConfig world0 = (Ret None, w1)
      ∧ defaultEntry w1 = (Ret e, w1)
      ∧ development (errorLogger e) = false.
Proof.
  split; [left; reflexivity|].
  destruct (DPanicv_returns defaultConfig world0 "m" [] (or_introl eq_refl))
    as (e & w1 & H1 & H2 & H3 & _).
  exists e, w1. repeat split; assumption.
Defined.

(** ** Further properties: [AtLevel] at the named levels *)

(** X14. At Debug, Info, Warn, Error, Panic or Fatal, [AtLevel] is one
    call at that very level: on the info logger of the default entry for
    Debug and Info, on its error logger for the others.  When the level is
    enabled and the channel has no nil writer, one line at that level is
    added for each writer of the channel. *)
Theorem AtLevel_named_level (w : World) (lvl : Z) (msg : string)
    (fields : list Field) :
  wf w = true →
  lvl ∈ [DebugLevel; InfoLevel; WarnLevel; ErrorLevel; PanicLevel; FatalLevel] →
  ∃ d L,
    defaultEntry w = (Ret d, w)
    ∧ levels w !! level (core (infoLogger d)) = Some L
    ∧ levels w !! level (core (errorLogger d)) = Some L
    ∧ AtLevel lvl msg fields w
      = Zap.Logger_log
          (if bool_decide (lvl ≤ InfoLevel) then infoLogger d else errorLogger d)
          lvl msg fields w
    ∧ (L ≤ lvl →
       healthy (out (core (if bool_decide (lvl ≤ InfoLevel)
                           then infoLogger d else errorLogger d))) = true →
       written (snd (AtLevel lvl msg fields w))
       = written w
         ++ emitted (out (core (if bool_decide (lvl ≤ InfoLevel)
                                then infoLogger d else errorLogger d)))
              (Zap.lineOf (if bool_decide (lvl ≤ InfoLevel)
                           then infoLogger d else errorLogger d)
                 lvl msg fields)).
Proof.
  intros Hwf Hin.
  destruct (default_spec w Hwf) as (a & d & Ha & Hd & Hg & Hlt).
  apply same_gate_spec in Hg as (Hi & He & _).
  destruct (lookup_lt_is_Some_2 (levels w) a Hlt) as [L HL].
  exists d, L.
  split; [done|]. split; [by rewrite Hi|]. split; [by rewrite He|].
  assert (AtLevel lvl msg fields w
          = Zap.Logger_log
              (if bool_decide (lvl ≤ InfoLevel) then infoLogger d else errorLogger d)
              lvl msg fields w) as Heq.
  { unfold AtLevel, Debugv, Panicv, Errorv, Warnv, Infov, Fatalv, bind.
    set_unfold.
    destruct Hin as [->|[->|[->|[->|[->|[->|[]]]]]]]; simpl; by rewrite Hd. }
  split; [done|].
  intros Hen Hh. rewrite Heq.
  rewrite (Logger_log_spec _ _ _ _ _ L).
  - rewrite bool_decide_eq_true_2 by done. done.
  - destruct (bool_decide (lvl ≤ InfoLevel)); by rewrite ?Hi, ?He.
Qed.

Lemma AtLevel_named_level_witness :
  wf world0 = true
  ∧ (ErrorLevel ∈ [DebugLevel; InfoLevel; WarnLevel; ErrorLevel;
                   PanicLevel; FatalLevel])
  ∧ ∃ d, defaultEntry world0 = (Ret d, world0)
      ∧ AtLevel ErrorLevel "m" [] world0
        = Zap.Logger_log (errorLogger d) ErrorLevel "m" [] world0.
Proof.
  assert (ErrorLevel ∈ [DebugLevel; InfoLevel; WarnLevel; ErrorLevel;
                        PanicLevel; FatalLevel]) as Hin by set_solver.
  split; [reflexivity|]. split; [exact Hin|].
  destruct (AtLevel_named_level world0 ErrorLevel "m" [] eq_refl Hin)
    as (d & L & Hd & _ & _ & Heq & _).
  exists d. split; [exact Hd | exact Heq].
Defined.

(** ** Further properties: bound fields *)

(** X15. [With(data)] returns a new child of the default logger whose
    two loggers carry the default logger's bound fields followed by the one
    field that binds [data] to the key "-"; it consumes one iteration
    choice, and an enabled Info call on the child writes that field
    between the default logger's fields and the fields of the call. *)
Theorem With_binds_default_key (w : World) (data msg : string)
    (fields : list Field) :
  wf w = true →
  ∃ d ce w1,
    defaultEntry w = (Ret d, w)
    ∧ With data w = (Ret (Addr (length (entries w))), w1)
    ∧ load (Addr (length (entries w))) w1 = (Ret ce, w1)
    ∧ iter w1 = drop 1 (iter w)
    ∧ ctx (core (infoLogger ce))
      = ctx (core (infoLogger d)) ++ [zap_Any "-" (VString data)]
    ∧ ctx (core (errorLogger ce))
      = ctx (core (errorLogger d)) ++ [zap_Any "-" (VString data)]
    ∧ (∀ L,
         levels w !! level (core (infoLogger d)) = Some L →
         L ≤ InfoLevel →
         healthy (out (core (infoLogger d))) = true →
         LogEntry_Infov (Addr (length (entries w))) msg fields w1
         = (Ret tt,
            add_written
              (emitted (out (core (infoLogger d)))
                 (mkLine (enc (core (infoLogger d))) InfoLevel msg
                    (if addCaller (infoLogger d)
                     then Some (callerSkip (infoLogger d)) else None)
                    (ctx (core (infoLogger d))
                     ++ [zap_Any "-" (VString data)] ++ fields))) w1)).
Proof.
  intros Hwf.
  destruct (default_spec w Hwf) as (a & d & Ha & Hd & Hg & Hlt).
  destruct (LogEntry_WithFields_spec _ d {[ DefaultFieldName := VString data ]}
              w (load_default _ _ Hd))
    as (args & ce & _ & Hsingle & Hei & Hee & _ & _ & Heq).
  rewrite (Hsingle _ _ eq_refl) in Hei, Hee.
  rewrite map_to_list_singleton in Heq. simpl in Heq.
  set (w1 := with_child ce 1 w) in *.
  pose proof (load_with_child ce 1 w) as Hlc. fold w1 in Hlc.
  exists d, ce, w1.
  split; [done|].
  split; [unfold With, WithField, bind, get; by rewrite newLogEntry_eq|].
  split; [done|]. split; [done|].
  split; [by destruct Hei as (_ & _ & _ & -> & _)|].
  split; [by destruct Hee as (_ & _ & _ & -> & _)|].
  intros L HL Hen Hh.
  by apply (Infov_on_child _ ce _ _ _ L).
Qed.

Lemma With_binds_default_key_witness :
  wf world0 = true
  ∧ ∃ ce w1,
      With "job-7" world0 = (Ret (Addr 1), w1)
      ∧ load (Addr 1) w1 = (Ret ce, w1)
      ∧ ctx (core (infoLogger ce)) = [zap_Any "-" (VString "job-7")].
Proof.
  split; [reflexivity|].
  destruct (With_binds_default_key world0 "job-7" "m" [] eq_refl)
    as (d & ce & w1 & Hd & Heq & Hl & _ & Hctx & _).
  exists ce, w1. split; [exact Heq|]. split; [exact Hl|].
  rewrite Hctx. injection Hd as <-. reflexivity.
Defined.

(** X16. [WithFields] only ever adds: the parent's bound fields are a
    prefix of the child's, the child has as many more as the map has
    entries, and a key bound again does not replace the earlier binding,
    both fields stay. *)
Theorem WithFields_keeps_earlier_fields (w : World) (parent : Ptr)
    (pe : LogEntry) (f : Fields) :
  load parent w = (Ret pe, w) →
  ∃ ce w1,
    LogEntry_WithFields parent f w = (Ret (Addr (length (entries w))), w1)
    ∧ load (Addr (length (entries w))) w1 = (Ret ce, w1)
    ∧ ctx (core (infoLogger pe)) `prefix_of` ctx (core (infoLogger ce))
    ∧ ctx (core (errorLogger pe)) `prefix_of` ctx (core (errorLogger ce))
    ∧ length (ctx (core (infoLogger ce)))
      = (length (ctx (core (infoLogger pe))) + size f)%nat
    ∧ length (ctx (core (errorLogger ce)))
      = (length (ctx (core (errorLogger pe))) + size f)%nat
    ∧ (∀ k v v',
         zap_Any k v ∈ ctx (core (infoLogger pe)) →
         f !! k = Some v' →
         zap_Any k v ∈ ctx (core (infoLogger ce))
         ∧ zap_Any k v' ∈ ctx (core (infoLogger ce))).
Proof.
  intros Hl.
  destruct (LogEntry_WithFields_spec parent pe f w Hl)
    as (args & ce & Hperm & _ & Hei & Hee & _ & _ & Heq).
  exists ce, (with_child ce (length (map_to_list f)) w).
  split; [done|]. split; [apply load_with_child|].
  destruct Hei as (_ & _ & _ & Hci & _). destruct Hee as (_ & _ & _ & Hce & _).
  assert (length args = size f) as Hlen.
  { rewrite Hperm. unfold as_fields. rewrite length_map.
    apply length_map_to_list. }
  rewrite Hci, Hce.
  split; [by eexists|]. split; [by eexists|].
  split; [by rewrite length_app, Hlen|]. split; [by rewrite length_app, Hlen|].
  intros k v v' Hin Hf. split.
  - apply elem_of_app. by left.
  - apply elem_of_app. right. rewrite Hperm.
    unfold as_fields. rewrite map_is_fmap.
    apply (list_elem_of_fmap_2 (λ kv, zap_Any kv.1 kv.2) _ (k, v')).
    by apply elem_of_map_to_list.
Qed.

Lemma WithFields_keeps_earlier_fields_witness :
  load (Addr 0) world0 = (Ret entry0, world0)
  ∧ ∃ ce w1,
      LogEntry_WithFields (Addr 0) fields_ab world0 = (Ret (Addr 1), w1)
      ∧ load (Addr 1) w1 = (Ret ce, w1)
      ∧ length (ctx (core (infoLogger ce)))
        = (length (ctx (core (infoLogger entry0))) + size fields_ab)%nat.
Proof.
  split; [reflexivity|].
  destruct (WithFields_keeps_earlier_fields world0 (Addr 0) entry0 fields_ab
              eq_refl) as (ce & w1 & Heq & Hl & _ & _ & Hlen & _).
  exists ce, w1. split; [exact Heq|]. split; [exact Hl | exact Hlen].
Defined.

(** ** Further properties: what a logging call leaves alone *)

(** X17. A package-level call in the [v] style changes nothing but the
    trace of writes, whatever its outcome: the level cells, the entries,
    [DefaultZapLogger], [loglv] and the pending iteration choices are as
    before, lines are only added at the end of the trace, and the
    invariant of the package state still holds. *)
Theorem logging_only_appends (w : World) (msg : string) (fields : list Field) :
  wf w = true →
  ∀ call,
    call ∈ [Debugv; Infov; Warnv; Errorv; DPanicv; Panicv; Fatalv] →
    ∃ suffix,
      snd (call msg fields w) = add_written suffix w
      ∧ wf (snd (call msg fields w)) = true.
Proof.
  intros Hwf call Hin.
  destruct (default_spec w Hwf) as (a & d & Ha & Hd & Hg & Hlt).
  apply same_gate_spec in Hg as (Hi & He & _).
  destruct (lookup_lt_is_Some_2 (levels w) a Hlt) as [L HL].
  assert (∀ lg lvl,
            level (core lg) = a →
            ∃ suffix,
              snd (Zap.Logger_log lg lvl msg fields w) = add_written suffix w)
    as Hlog.
  { intros lg lvl Hlg.
    rewrite (Logger_log_spec _ _ _ _ _ L) by (by rewrite Hlg).
    destruct (bool_decide (L ≤ lvl)); simpl.
    - by eexists.
    - exists []. by rewrite add_written_nil. }
  assert (∃ suffix, snd (call msg fields w) = add_written suffix w)
    as [suffix Hs].
  { set_unfold.
    destruct Hin as [->|[->|[->|[->|[->|[->|[->|[]]]]]]]];
      unfold Debugv, Infov, Warnv, Errorv, DPanicv, Panicv, Fatalv, bind;
      rewrite Hd; by apply Hlog. }
  exists suffix. split; [done|]. by rewrite Hs, wf_add_written.
Qed.

Lemma logging_only_appends_witness :
  wf world0 = true
  ∧ ∃ suffix,
      snd (Errorv "m" [] world0) = add_written suffix world0
      ∧ wf (snd (Errorv "m" [] world0)) = true.
Proof.
  split; [reflexivity|].
  apply (logging_only_appends world0 "m" [] eq_refl Errorv).
  set_solver.
Defined.

(** ** Further properties: the "logging configured" lines *)


